(** * The enrichment API of [server.js], embedded in Rocq

    The program is one Express handler, [POST /api/enrich], and the helper
    [enrichCompany].  The handler parses an uploaded CSV file into rows,
    derives a company name from each row, asks a text-generation service
    about the first fifty companies, merges every answer into its row and
    replies with the rows and four summary numbers.

    What the source gets from outside ([csv-parser], [JSON.parse], the
    Anthropic client, the clock) is a [Variable] of the section that uses
    it; everything [server.js] itself computes is a definition below.  Two
    of the outside parts also have a model of their own, for the theorems
    that need to know what they do: [csv()] on plain buffers ([CsvParser])
    and [toISOString] ([JsDate]).

    - JavaScript strings are [string]; a character stands for one code unit.
    - JavaScript numbers are binary64 floats ([PrimFloat.float]); an array
      length is a [nat], turned into a number by [Number_of_nat].
    - A JavaScript object is the list of its own properties in the order
      [Object.keys] gives them. *)

From Stdlib Require Import List String Ascii ZArith NArith Lia Bool.
From Stdlib Require Import Floats.PrimFloat Numbers.Cyclic.Int63.Uint63.
From Stdlib Require Import DecimalString.
Import ListNotations.

Set Warnings "-inexact-float,-register-all".
Local Open Scope string_scope.

(* ================================================================== *)
(** ** JavaScript values and objects *)
(* ================================================================== *)

Module Js.

(** The characters that a Rocq string literal cannot hold directly. *)
Definition dq : string := String "034"%char "".
Definition nl : string := String "010"%char "".

(** What [JSON.parse] can return, and what a result row can hold. *)
Inductive Value : Type :=
| Null
| Bool (b : bool)
| Num (x : float)
| Str (s : string)
| Arr (items : list Value)
| Object (props : list (string * Value)).

(** An object with property values in [V]: own properties, in key order. *)
Definition Obj (V : Type) : Type := list (string * V).

Section Objects.
Context {V : Type}.

(** [o[k]] for a key that is not inherited: [None] is [undefined]. *)
Fixpoint obj_get (k : string) (o : Obj V) : option V :=
  match o with
  | [] => None
  | (k', v) :: o' => if (k' =? k)%string then Some v else obj_get k o'
  end.

Definition obj_has (k : string) (o : Obj V) : bool :=
  match obj_get k o with Some _ => true | None => false end.

Definition Object_keys (o : Obj V) : list string := map fst o.
Definition Object_values (o : Obj V) : list V := map snd o.

(** Array indices: the canonical decimal strings of 0 .. 2^32 - 2.  An object
    lists these keys first, in ascending order, and the other keys after them
    in the order they were created. *)
Definition digit_of (c : ascii) : option N :=
  let n := N_of_ascii c in
  if ((48 <=? n) && (n <=? 57))%N then Some (n - 48)%N else None.

Fixpoint digits_value (s : string) (acc : N) : option N :=
  match s with
  | EmptyString => Some acc
  | String c s' =>
      match digit_of c with
      | Some d => digits_value s' (10 * acc + d)%N
      | None => None
      end
  end.

Definition array_index (k : string) : option N :=
  match k with
  | EmptyString => None
  | String c rest =>
      if (c =? "0")%char
      then match rest with EmptyString => Some 0%N | _ => None end
      else match digits_value k 0 with
           | Some n => if (n <? 2 ^ 32 - 1)%N then Some n else None
           | None => None
           end
  end.

(** Does a new key [k] come before the existing key [k']? *)
Definition key_before (k k' : string) : bool :=
  match array_index k, array_index k' with
  | Some i, Some j => (i <? j)%N
  | Some _, None => true
  | None, _ => false
  end.

(** A property that the object does not have yet is created in its place. *)
Fixpoint obj_add (k : string) (v : V) (o : Obj V) : Obj V :=
  match o with
  | [] => [(k, v)]
  | (k', v') :: o' =>
      if key_before k k' then (k, v) :: o else (k', v') :: obj_add k v o'
  end.

(** A property that the object has keeps its place and takes the new value. *)
Fixpoint obj_replace (k : string) (v : V) (o : Obj V) : Obj V :=
  match o with
  | [] => []
  | (k', v') :: o' =>
      if (k' =? k)%string then (k, v) :: o' else (k', v') :: obj_replace k v o'
  end.

(** [k: v] in an object literal that already holds [o]. *)
Definition obj_set (k : string) (v : V) (o : Obj V) : Obj V :=
  if obj_has k o then obj_replace k v o else obj_add k v o.

(** [...src] in an object literal that already holds [target]: every own key
    of [src], in order, is read from [src] and set on the target. *)
Definition obj_spread (src target : Obj V) : Obj V :=
  fold_left
    (fun acc k => match obj_get k src with
                  | Some v => obj_set k v acc
                  | None => acc
                  end)
    (Object_keys src) target.

End Objects.

(** [a || b] on values that are [undefined] or a string: the only falsy
    string is the empty one. *)
Definition truthy (v : option string) : bool :=
  match v with
  | Some s => negb (s =? "")%string
  | None => false
  end.

Definition or_else (a b : option string) : option string :=
  if truthy a then a else b.

(** [results.length] as a number; a length is below 2^32, far from where
    the conversion through 63-bit integers would wrap. *)
Definition Number_of_nat (n : nat) : float :=
  PrimFloat.of_uint63 (Uint63.of_Z (Z.of_nat n)).

End Js.

Declare Scope js_scope.
Delimit Scope js_scope with js.
Infix "|||" := Js.or_else (at level 50, left associativity) : js_scope.

Import Js.
Local Open Scope js_scope.

(* ================================================================== *)
(** ** Row extractor: the ['data'] handler (lines 34-39) *)
(* ================================================================== *)

Module RowExtractor.

(** One row as [csv-parser] emits it: header name to cell text. *)
Definition Row : Type := Obj string.

Record Company : Type := mkCompany { name : string; originalRow : Row }.

(** The four column names tried by the handler, in the order it tries them.
    None of them is a property of [Object.prototype], so [row.company] and
    the like read own properties only. *)
Definition aliases : list string :=
  ["company"; "Company"; "business_name"; "Company Name"].

(** [row.company || row.Company || row.business_name ||
     row['Company Name'] || Object.values(row)[0]] *)
Definition companyName (row : Row) : option string :=
  obj_get "company" row ||| obj_get "Company" row
  ||| obj_get "business_name" row ||| obj_get "Company Name" row
  ||| nth_error (Object_values row) 0.

(** [if (companyName) companies.push({ name: companyName, originalRow: row })] *)
Definition on_data (companies : list Company) (row : Row) : list Company :=
  match companyName row with
  | Some n =>
      if truthy (Some n)
      then companies ++ [mkCompany n row]
      else companies
  | None => companies
  end.

(** How the parser's stream finishes: ['end'] resolves the promise the
    handler awaits, ['error'] rejects it. *)
Inductive Finish : Type := StreamEnd | StreamError.

(** What [csv()] emits for one buffer: the rows, then how it finishes. *)
Record Trace : Type := mkTrace { rows : list Row; finish : Finish }.

(** The [companies] array once the stream has finished. *)
Definition collect (rs : list Row) : list Company := fold_left on_data rs [].

End RowExtractor.
Import RowExtractor.

(* ================================================================== *)
(** ** Enrichment client: [enrichCompany] (lines 79-111) *)
(* ================================================================== *)

Module EnrichmentClient.

(** *** The regular expression [/\{[\s\S]*\}/] *)

(** The pieces this pattern is made of: one character, or a starred class. *)
Inductive Atom : Type :=
| Lit (c : ascii)
| StarClass (cls : ascii -> bool).

(** Backtracking match of a pattern at the start of [s]; the result is the
    text matched.  A star is greedy: it takes one more character whenever the
    rest of the pattern still matches afterwards. *)
Fixpoint match_here (re : list Atom) (s : string) : option string :=
  match re with
  | [] => Some ""
  | Lit c :: re' =>
      match s with
      | String c' s' =>
          if (c' =? c)%char
          then option_map (String c') (match_here re' s')
          else None
      | EmptyString => None
      end
  | StarClass cls :: re' =>
      (fix star (s : string) : option string :=
         match s with
         | String c' s' =>
             if cls c'
             then match star s' with
                  | Some m => Some (String c' m)
                  | None => match_here re' s
                  end
             else match_here re' s
         | EmptyString => match_here re' s
         end) s
  end.

(** [s.match(re)[0]] for a pattern without the [g] flag: the match at the
    leftmost position that has one; [None] is [null]. *)
Fixpoint regex_match (re : list Atom) (s : string) : option string :=
  match match_here re s with
  | Some m => Some m
  | None =>
      match s with
      | String _ s' => regex_match re s'
      | EmptyString => None
      end
  end.

(** [\s]: the white space and line terminators below code 128. *)
Definition is_space (c : ascii) : bool :=
  let n := nat_of_ascii c in
  (n =? 9)%nat || (n =? 10)%nat || (n =? 11)%nat || (n =? 12)%nat
  || (n =? 13)%nat || (n =? 32)%nat.

(** [[\s\S]] *)
Definition space_or_not (c : ascii) : bool := is_space c || negb (is_space c).

(** [/\{[\s\S]*\}/] *)
Definition json_re : list Atom := [Lit "{"; StarClass space_or_not; Lit "}"].

(** *** The request *)

Record Message : Type := mkMessage { role : string; content : string }.

Record CreateParams : Type := mkParams {
  model : string;
  max_tokens : nat;
  messages : list Message
}.

Definition field (k v : string) : string :=
  "  " ++ dq ++ k ++ dq ++ ": " ++ v.
Definition quoted (s : string) : string := dq ++ s ++ dq.
Definition array_of (xs : list string) : string :=
  "[" ++ String.concat ", " (map quoted xs) ++ "]".

(** The eleven fields the prompt asks for, with the text it gives for each. *)
Definition prompt_fields : list (string * string) :=
  [ ("industry", quoted "primary industry");
    ("employee_range", quoted "estimated count like 50-200");
    ("revenue_range", quoted "estimated annual revenue");
    ("headquarters", quoted "city, country");
    ("founded_year", quoted "year or null");
    ("tech_stack", array_of ["technology1"; "technology2"; "technology3"]);
    ("pain_points", array_of ["challenge1"; "challenge2"]);
    ("decision_maker", quoted "typical buyer title");
    ("linkedin_url", quoted "best guess at company linkedin");
    ("ideal_pitch", quoted "30 word pitch for selling to them");
    ("buying_signals", array_of ["signal1"; "signal2"]) ].

Definition EnrichedData_fields : list string := map fst prompt_fields.

(** The template literal of lines 85-100. *)
Definition prompt (companyName : string) : string :=
  "Research " ++ quoted companyName ++ " and return ONLY a JSON object with:" ++ nl
  ++ "{" ++ nl
  ++ String.concat ("," ++ nl) (map (fun kv => field (fst kv) (snd kv)) prompt_fields) ++ nl
  ++ "}" ++ nl
  ++ nl
  ++ "Be specific and actionable. No markdown, just JSON.".

Definition create_params (companyName : string) : CreateParams :=
  mkParams "claude-sonnet-4-20250514" 1024 [mkMessage "user" (prompt companyName)].

(** *** The reply *)

(** One block of [message.content]; a block of another kind has no [text]. *)
Record ContentBlock : Type := mkBlock { text : option string }.

(** [await anthropic.messages.create(...)]: the call rejects, or resolves
    to a message. *)
Inductive ServiceReply : Type :=
| Rejects
| Resolves (message_content : list ContentBlock).

(** What [enrichCompany] can throw. *)
Inductive EnrichmentError : Type :=
| ServiceError     (* the call to the service rejected *)
| TypeError        (* [content[0]] or its [text] is undefined *)
| NoJsonFound      (* [new Error('No JSON in response')] *)
| MalformedJson.   (* the [SyntaxError] of [JSON.parse] *)

Definition EnrichedData : Type := Obj Value.

Section Client.

(** [JSON.parse] on a text that starts with an opening brace: it throws
    ([None]) or returns an object. *)
Variable JSON_parse : string -> option EnrichedData.

(** Lines 104-110. *)
Definition parse_reply (responseText : string) : EnrichmentError + EnrichedData :=
  match regex_match json_re responseText with
  | None => inl NoJsonFound
  | Some jsonMatch =>
      match JSON_parse jsonMatch with
      | None => inl MalformedJson
      | Some parsed => inr parsed
      end
  end.

(** The service as the [call]-th call of one request sees it. *)
Variable messages_create : nat -> CreateParams -> ServiceReply.

Definition enrichCompany (call : nat) (companyName : string)
  : EnrichmentError + EnrichedData :=
  match messages_create call (create_params companyName) with
  | Rejects => inl ServiceError
  | Resolves [] => inl TypeError
  | Resolves (block :: _) =>
      match text block with
      | None => inl TypeError
      | Some responseText => parse_reply responseText
      end
  end.

End Client.

(** *** The spec's reading of the extraction *)

(** Position of the first [c] in [s]. *)
Fixpoint first_index (c : ascii) (s : string) : option nat :=
  match s with
  | EmptyString => None
  | String a s' =>
      if (a =? c)%char then Some 0 else option_map S (first_index c s')
  end.

(** Position of the last [c] in [s]. *)
Fixpoint last_index (c : ascii) (s : string) : option nat :=
  match s with
  | EmptyString => None
  | String a s' =>
      match last_index c s' with
      | Some j => Some (S j)
      | None => if (a =? c)%char then Some 0 else None
      end
  end.

(** The text from the first opening brace to the last closing brace, when
    the one comes before the other. *)
Definition brace_span (s : string) : option string :=
  match first_index "{" s, last_index "}" s with
  | Some i, Some j =>
      if (i <? j)%nat then Some (substring i (j - i + 1) s) else None
  | _, _ => None
  end.

End EnrichmentClient.
Import EnrichmentClient.

(* ================================================================== *)
(** ** Cost model and batch loop: lines 45-70 and 114-119 *)
(* ================================================================== *)

Module Handler.

Definition ResultRow : Type := Obj Value.

(** [calculateCost]: the argument is not looked at. *)
Definition calculateCost (data : EnrichedData) : float := 0.15%float.

(** The cells of a row as values of a result row. *)
Definition cells (row : Row) : Obj Value := map (fun kv => (fst kv, Str (snd kv))) row.

(** [{ ...company.originalRow, ...enrichedData,
       enrichment_cost: calculateCost(enrichedData),
       enriched_at: new Date().toISOString() }] *)
Definition enriched_row (company : Company) (enrichedData : EnrichedData)
    (enriched_at : string) : ResultRow :=
  obj_set "enriched_at" (Str enriched_at)
    (obj_set "enrichment_cost" (Num (calculateCost enrichedData))
       (obj_spread enrichedData
          (obj_spread (cells (originalRow company)) []))).

(** [{ ...company.originalRow, error: 'Enrichment failed' }] *)
Definition failed_row (company : Company) : ResultRow :=
  obj_set "error" (Str "Enrichment failed")
    (obj_spread (cells (originalRow company)) []).

(** The body of a 200 reply. *)
Record Summary : Type := mkSummary {
  success : bool;
  total_processed : nat;
  estimated_cost : float;
  retail_value : float;
  margin : float;
  data : list ResultRow
}.

Inductive Response : Type :=
| Status200 (body : Summary)
| Status500 (error : string).

(** [res.json({ success: true, total_processed: results.length, ... })] *)
Definition summary (results : list ResultRow) : Summary :=
  let n := Number_of_nat (List.length results) in
  mkSummary true (List.length results)
    (n * 0.15)%float
    (n * 10)%float
    ((n * 10) - (n * 0.15))%float
    results.

(** A request as the handler function receives it, that is, after
    [upload.single('file')] has passed it on: [req.file] is undefined when
    no file came with it.  A request that multer itself refuses never
    reaches the handler; Express answers it, and it is not modelled. *)
Record File : Type := mkFile { buffer : string }.
Record Request : Type := mkRequest { file : option File }.

Section Endpoint.

(** [Readable.from(buffer.toString()).pipe(csv())] *)
Variable csv : string -> Trace.
Variable JSON_parse : string -> option EnrichedData.
Variable messages_create : nat -> CreateParams -> ServiceReply.
(** [new Date().toISOString()] in the [i]-th round of the loop. *)
Variable now_toISOString : nat -> string.

(** One round of the loop of lines 45-61, for the [i]-th company. *)
Definition enrich_step (i : nat) (company : Company) (results : list ResultRow)
  : list ResultRow :=
  match enrichCompany JSON_parse messages_create i (name company) with
  | inr enrichedData =>
      results ++ [enriched_row company enrichedData (now_toISOString i)]
  | inl _ =>
      results ++ [failed_row company]
  end.

Fixpoint enrich_loop (i : nat) (batch : list Company) (results : list ResultRow)
  : list ResultRow :=
  match batch with
  | [] => results
  | company :: rest => enrich_loop (S i) rest (enrich_step i company results)
  end.

(** [companies.slice(0, 50)] *)
Definition batch_limit : nat := 50.

(** Lines 44-75: what the handler replies once the stream has finished. *)
Definition respond (trace : Trace) : Response :=
  let companies := collect (rows trace) in
  match finish trace with
  | StreamError => Status500 "Processing failed"
  | StreamEnd =>
      Status200 (summary (enrich_loop 0 (firstn batch_limit companies) []))
  end.

(** The handler function of [app.post('/api/enrich', ...)], lines 23-76:
    reading [buffer] off an undefined [req.file] throws, and the outer
    [catch] replies. *)
Definition enrich (req : Request) : Response :=
  match file req with
  | None => Status500 "Processing failed"
  | Some f => respond (csv (buffer f))
  end.

End Endpoint.

End Handler.
Import Handler.

(* ================================================================== *)
(** ** The parser: [csv()] with its default options *)
(* ================================================================== *)

Module CsvParser.

(** What [csv-parser] does with one chunk that holds the whole upload, when
    it is made by [csv()] as on line 33: comma separated cells, lines that
    end in LF or CRLF, the first line the headers, and no strict mode.  The
    model covers plain buffers only: ASCII bytes, no double quote, and no
    carriage return other than right before a line feed.  On these the
    parser never emits ['error']. *)

Definition LF : ascii := "010".
Definition CR : ascii := "013".

Definition plain_byte (c : ascii) : bool :=
  let n := nat_of_ascii c in (n <? 128)%nat && negb (n =? 34)%nat.

Fixpoint plain (buf : string) : bool :=
  match buf with
  | EmptyString => true
  | String c rest =>
      plain_byte c
      && (if (c =? CR)%char
          then match rest with
               | String c' _ => (c' =? LF)%char
               | EmptyString => false
               end
          else true)
      && plain rest
  end.

(** The pieces of [s] between the occurrences of [sep]. *)
Fixpoint split_on (sep : ascii) (s : string) : list string :=
  match s with
  | EmptyString => [""]
  | String c s' =>
      if (c =? sep)%char then "" :: split_on sep s'
      else match split_on sep s' with
           | h :: t => String c h :: t
           | [] => [String c ""]
           end
  end.

(** What is left after the last line feed is a line only if it is not
    empty ([_flush]). *)
Fixpoint drop_empty_last (pieces : list string) : list string :=
  match pieces with
  | [] => []
  | [last] => if (last =? "")%string then [] else [last]
  | piece :: rest => piece :: drop_empty_last rest
  end.

(** [parseLine] trims the line feed and then one carriage return. *)
Fixpoint strip_cr (line : string) : string :=
  match line with
  | EmptyString => ""
  | String c rest =>
      match rest with
      | EmptyString => if (c =? CR)%char then "" else line
      | _ => String c (strip_cr rest)
      end
  end.

Definition lines_of (buf : string) : list string :=
  map strip_cr (drop_empty_last (split_on LF buf)).

(** The cells of a line: an empty line has none, and a line that ends in a
    comma has an empty last cell. *)
Definition cells_of (line : string) : list string :=
  if (line =? "")%string then [] else split_on "," line.

Definition decimal (n : nat) : string := NilEmpty.string_of_uint (Nat.to_uint n).

(** [o[key] = cell] on an object made by [{}]: assigning a string to
    [__proto__] does nothing, any other key becomes an own property. *)
Definition assign (key cell : string) (o : Row) : Row :=
  if (key =? "__proto__")%string then o else obj_set key cell o.

(** [writeRow]: a cell goes under its header, and a cell beyond the last
    header under [_] and its index. *)
Fixpoint writeRow_from (index : nat) (headers cells : list string) (o : Row) : Row :=
  match cells with
  | [] => o
  | cell :: cells' =>
      writeRow_from (S index) headers cells'
        (match nth_error headers index with
         | Some header => assign header cell o
         | None => assign ("_" ++ decimal index) cell o
         end)
  end.

Definition writeRow (headers cells : list string) : Row :=
  writeRow_from 0 headers cells [].

(** The rows emitted for a plain buffer, followed by ['end']. *)
Definition rows_of (buf : string) : list Row :=
  match lines_of buf with
  | [] => []
  | header_line :: data_lines =>
      map (fun line => writeRow (cells_of header_line) (cells_of line)) data_lines
  end.

Definition parse (buf : string) : option Trace :=
  if plain buf then Some (mkTrace (rows_of buf) StreamEnd) else None.


(** A plain buffer in which some line after the first has more or fewer
    cells than there are headers. *)
Definition ragged (buf : string) : bool :=
  plain buf
  && match lines_of buf with
     | [] => false
     | header_line :: data_lines =>
         existsb (fun line => negb (List.length (cells_of line)
                                    =? List.length (cells_of header_line))%nat)
                 data_lines
     end.

End CsvParser.

(* ================================================================== *)
(** ** The clock: [new Date().toISOString()] *)
(* ================================================================== *)

Module JsDate.

(** A date holds a time value: whole milliseconds since 1970-01-01T00:00Z,
    within 8.64e15 either way.  [toISOString] writes it in UTC as
    [YYYY-MM-DDTHH:mm:ss.sssZ], the year with a sign and six digits when it
    is not one of 0000 .. 9999. *)

Local Open Scope Z_scope.

Definition msPerDay : Z := 86400000.

(** Year, month and day of the day that is [days] days after 1970-01-01,
    in the Gregorian calendar run both ways.  Years are counted from
    March, in eras of 400; [doe] is the day of the era, [yoe] the year of
    the era, [doy] the day of the year and [mp] the month, March being 0. *)
Definition civil_from_days (days : Z) : Z * Z * Z :=
  let z := days + 719468 in
  let era := z / 146097 in
  let doe := z - era * 146097 in
  let yoe := (doe - doe / 1460 + doe / 36524 - doe / 146096) / 365 in
  let doy := doe - (365 * yoe + yoe / 4 - yoe / 100) in
  let mp := (5 * doy + 2) / 153 in
  let d := doy - (153 * mp + 2) / 5 + 1 in
  let m := if (mp <? 10)%Z then mp + 3 else mp - 9 in
  let y := yoe + era * 400 + (if (m <=? 2)%Z then 1 else 0) in
  (y, m, d).

Definition digit (d : Z) : ascii := ascii_of_N (Z.to_N (48 + d)).

(** The last [width] decimal digits of [n]. *)
Fixpoint pad (width : nat) (n : Z) : string :=
  match width with
  | O => ""
  | S w => String (digit ((n / 10 ^ Z.of_nat w) mod 10)) (pad w n)
  end.

Definition year_text (y : Z) : string :=
  if ((0 <=? y)%Z && (y <=? 9999)%Z)%bool then pad 4 y
  else ((if (y <? 0)%Z then "-" else "+") ++ pad 6 (Z.abs y))%string.

Definition toISOString (t : Z) : string :=
  let ms := t mod msPerDay in
  let '(y, m, d) := civil_from_days (t / msPerDay) in
  (year_text y ++ "-" ++ pad 2 m ++ "-" ++ pad 2 d
   ++ "T" ++ pad 2 (ms / 3600000) ++ ":" ++ pad 2 ((ms / 60000) mod 60)
   ++ ":" ++ pad 2 ((ms / 1000) mod 60) ++ "." ++ pad 3 (ms mod 1000) ++ "Z")%string.

End JsDate.

(* ================================================================== *)
(** ** The properties in the specification's words *)
(* ================================================================== *)

Module Spec.

(** The candidates for a company name, in priority order: the cell of each
    alias, then whatever [fallback] is.  A candidate counts when it is a
    string that is not empty. *)
Definition resolve (names : list string) (fallback : option string) (row : Row)
  : option string :=
  fold_right (fun a rest => obj_get a row ||| rest) fallback names.

(** The first value of the row, if it has one. *)
Definition first_value (row : Row) : option string :=
  match row with
  | [] => None
  | (_, v) :: _ => Some v
  end.

(** Name derivation the way section 3 tells it: the first alias column that
    holds a name, else the first value of the row. *)
Definition derive_name (row : Row) : option string :=
  match find (fun a => truthy (obj_get a row)) aliases with
  | Some a => obj_get a row
  | None => first_value row
  end.

(** A row has a resolvable name when the derived candidate is a non-empty
    string. *)
Definition resolvable (row : Row) : bool := truthy (derive_name row).

Definition company_of (row : Row) : Company :=
  mkCompany (match derive_name row with Some n => n | None => "" end) row.

(** The text of [s] up to its last [c], that character included. *)
Fixpoint upto_last (c : ascii) (s : string) : option string :=
  match s with
  | EmptyString => None
  | String a s' =>
      match upto_last c s' with
      | Some m => Some (String a m)
      | None => if (a =? c)%char then Some (String a "") else None
      end
  end.

(** The result row of the [i]-th company of a batch, by the outcome of
    its enrichment. *)
Definition row_for (outcome : EnrichmentError + EnrichedData)
    (company : Company) (enriched_at : string) : ResultRow :=
  match outcome with
  | inr enrichedData => enriched_row company enrichedData enriched_at
  | inl _ => failed_row company
  end.

(** The batch of a trace: its companies, cut after the fiftieth. *)
Definition batch_of (trace : Trace) : list Company :=
  firstn batch_limit (collect (rows trace)).

(** What claim C6 says of one result row: it has a cost and a time stamp. *)
Definition has_cost_and_time (r : ResultRow) : Prop :=
  obj_has "enrichment_cost" r = true /\ obj_has "enriched_at" r = true.

(** Keys in the order an object lists them: no key that had to be created
    before an earlier one (an array index after a larger index, or after a
    key that is not an array index). *)
Fixpoint key_ordered {V : Type} (o : Obj V) : Prop :=
  match o with
  | [] => True
  | (k, _) :: o' =>
      Forall (fun kv => key_before (fst kv) k = false) o' /\ key_ordered o'
  end.

(** The lists that stand for an object: each key once, in key order. *)
Definition well_formed {V : Type} (o : Obj V) : Prop :=
  NoDup (Object_keys o) /\ key_ordered o.

(** *** ISO 8601, as a date and time in UTC with milliseconds *)

Definition is_digit (c : ascii) : bool :=
  let n := N_of_ascii c in ((48 <=? n) && (n <=? 57))%N.

Definition digit_value (c : ascii) : Z := (Z.of_N (N_of_ascii c) - 48)%Z.

(** Reads [width] digits off the front of [s]. *)
Fixpoint take_digits (width : nat) (s : string) (acc : Z) : option (Z * string) :=
  match width with
  | O => Some (acc, s)
  | S w =>
      match s with
      | String c s' =>
          if is_digit c then take_digits w s' (acc * 10 + digit_value c)%Z else None
      | EmptyString => None
      end
  end.

(** A number of [width] digits between [lo] and [hi]; the result is the
    text after it. *)
Definition number (width : nat) (lo hi : Z) (s : string) : option string :=
  match take_digits width s 0%Z with
  | Some (v, rest) => if ((lo <=? v) && (v <=? hi))%Z then Some rest else None
  | None => None
  end.

Definition expect (c : ascii) (s : string) : option string :=
  match s with
  | String c' rest => if (c' =? c)%char then Some rest else None
  | EmptyString => None
  end.

Definition and_then (x : option string) (f : string -> option string) : option string :=
  match x with
  | Some s => f s
  | None => None
  end.

(** Four digits, or a sign and six digits. *)
Definition year_part (s : string) : option string :=
  match s with
  | String c rest =>
      if ((c =? "+") || (c =? "-"))%char
      then number 6 0 999999 rest
      else number 4 0 9999 s
  | EmptyString => None
  end.

(** [s] reads year, month 01-12, day 01-31, [T], hour 00-23, minute and
    second 00-59, milliseconds and [Z], with nothing after. *)
Definition iso8601 (s : string) : bool :=
  match
    and_then (and_then (and_then (and_then (and_then (and_then (and_then
    (and_then (and_then (and_then (and_then (and_then (and_then
      (year_part s)
      (expect "-")) (number 2 1 12)) (expect "-")) (number 2 1 31))
      (expect "T")) (number 2 0 23)) (expect ":")) (number 2 0 59))
      (expect ":")) (number 2 0 59)) (expect ".")) (number 3 0 999))
      (expect "Z")
  with
  | Some EmptyString => true
  | _ => false
  end.


(** Claim C6 as it is worded: every row of every 200 reply has both. *)
Definition every_row_has_cost_and_time : Prop :=
  forall csv JSON_parse messages_create now_toISOString req body,
    enrich csv JSON_parse messages_create now_toISOString req = Status200 body ->
    Forall has_cost_and_time (data body).

End Spec.
Import Spec.

(* ================================================================== *)
(** ** Stand-ins for the outside world, for worked examples *)
(* ================================================================== *)

Module Demo.

(** The parser of the examples: the model of [csv()] on plain buffers.  All
    the uploads below are plain; on a buffer outside the model this stand-in
    gives no rows. *)
Definition csv (buf : string) : Trace :=
  match CsvParser.parse buf with
  | Some trace => trace
  | None => mkTrace [] StreamEnd
  end.


(** Two texts with their parses; every other text is a syntax error. *)
Definition tech_text : string :=
  "{" ++ quoted "industry" ++ ":" ++ quoted "Tech" ++ "}".
Definition tech_object : EnrichedData := [("industry", Str "Tech")].
Definition odd_text : string := "{" ++ quoted "enriched_at" ++ ":null}".
Definition odd_object : EnrichedData := [("enriched_at", Null)].

Definition JSON_parse (s : string) : option EnrichedData :=
  obj_get s [(tech_text, tech_object); (odd_text, odd_object)].

(** A service that answers the [i]-th call with the [i]-th of [replies]. *)
Definition service (replies : list ServiceReply)
  : nat -> CreateParams -> ServiceReply :=
  fun i _ => nth i replies Rejects.

Definition says (t : string) : ServiceReply := Resolves [mkBlock (Some t)].

(** A reply with the object wrapped in prose and a code fence. *)
Definition wrapped : string :=
  "Here you go:" ++ nl ++ "```json" ++ nl ++ tech_text ++ nl ++ "```".

Definition clock (i : nat) : string := "2024-05-01T12:00:00.000Z".

(** Time values for the rounds of a loop: noon of 2024-05-01, then a second
    more for each round. *)
Definition now (i : nat) : Z := (1714564800000 + 1000 * Z.of_nat i)%Z.

Definition upload (buf : string) : Request := mkRequest (Some (mkFile buf)).

Definition lines (ls : list string) : string := String.concat nl ls.

(** Sixty companies, ten more than one request handles. *)
Definition sixty : string := lines ("company" :: repeat "Acme" 60).

(** Five companies; the upload already has an [industry] column. *)
Definition five : string :=
  lines ["company,industry"; "Acme,Anvils"; "Globex,Energy"; "Initech,Software";
         "Hooli,Search"; "Umbrella,Pharma"].

(** The service's answers to [five]: the third has no JSON object in it. *)
Definition five_replies : list ServiceReply :=
  [says tech_text; says wrapped; says "I cannot help with that.";
   says tech_text; says tech_text].

(** Two rows, both without a name: the [company] cell, which is also the
    first value, is empty. *)
Definition nameless : string := lines ["company,city"; ",Paris"; ",Rome"].

(** The second row has a cell too many. *)
Definition ragged : string := lines ["company,city"; "Acme,Paris"; "Globex,Rome,Italy"].

(** One company, and a service that rejects the call. *)
Definition one : string := lines ["company"; "Acme"].

End Demo.

(* ================================================================== *)
(** ** Objects: reading after writing *)
(* ================================================================== *)

Section ObjectFacts.
Context {V : Type}.
Implicit Types (o src target : Obj V) (k : string) (v : V).

Lemma obj_has_true k o : obj_has k o = true <-> In k (Object_keys o).
Proof.
  unfold obj_has. induction o as [|[k' v'] o IH]; simpl.
  - split; [discriminate | tauto].
  - destruct (String.eqb_spec k' k) as [->|Hne].
    + split; auto.
    + rewrite IH. split; [auto | intros [E|H]; [contradiction | exact H]].
Qed.

Lemma obj_has_false k o : obj_has k o = false <-> ~ In k (Object_keys o).
Proof.
  rewrite <- obj_has_true. destruct (obj_has k o); split; congruence.
Qed.

Lemma obj_get_some_in k v o : obj_get k o = Some v -> In (k, v) o.
Proof.
  induction o as [|[k' v'] o IH]; simpl; [discriminate|].
  destruct (String.eqb_spec k' k) as [->|Hne].
  - intros [= ->]. now left.
  - intros H. right. auto.
Qed.

Lemma obj_get_replace_eq k v o :
  obj_has k o = true -> obj_get k (obj_replace k v o) = Some v.
Proof.
  unfold obj_has. induction o as [|[k' v'] o IH]; simpl; [discriminate|].
  destruct (String.eqb_spec k' k) as [->|Hne]; simpl.
  - now rewrite String.eqb_refl.
  - intros H. destruct (String.eqb_spec k' k); [contradiction | auto].
Qed.

Lemma obj_get_replace_neq k k1 v o :
  k1 <> k -> obj_get k1 (obj_replace k v o) = obj_get k1 o.
Proof.
  intros Hne. induction o as [|[k' v'] o IH]; simpl; [reflexivity|].
  destruct (String.eqb_spec k' k) as [->|Hne']; simpl.
  - destruct (String.eqb_spec k k1); [congruence | reflexivity].
  - now rewrite IH.
Qed.

Lemma obj_get_add_eq k v o :
  obj_has k o = false -> obj_get k (obj_add k v o) = Some v.
Proof.
  unfold obj_has. induction o as [|[k' v'] o IH]; simpl.
  - now rewrite String.eqb_refl.
  - destruct (String.eqb_spec k' k) as [->|Hne]; [discriminate|].
    intros H. destruct (key_before k k'); simpl.
    + now rewrite String.eqb_refl.
    + destruct (String.eqb_spec k' k); [contradiction | auto].
Qed.

Lemma obj_get_add_neq k k1 v o :
  k1 <> k -> obj_get k1 (obj_add k v o) = obj_get k1 o.
Proof.
  intros Hne. induction o as [|[k' v'] o IH]; simpl.
  - destruct (String.eqb_spec k k1); [congruence | reflexivity].
  - destruct (key_before k k'); simpl.
    + destruct (String.eqb_spec k k1); [congruence | reflexivity].
    + now rewrite IH.
Qed.

Lemma obj_get_set_eq k v o : obj_get k (obj_set k v o) = Some v.
Proof.
  unfold obj_set. destruct (obj_has k o) eqn:E.
  - now apply obj_get_replace_eq.
  - now apply obj_get_add_eq.
Qed.

Lemma obj_get_set_neq k k1 v o :
  k1 <> k -> obj_get k1 (obj_set k v o) = obj_get k1 o.
Proof.
  intros Hne. unfold obj_set. destruct (obj_has k o).
  - now apply obj_get_replace_neq.
  - now apply obj_get_add_neq.
Qed.

(** After a spread the source's value wins, and the keys that the source
    does not have keep the target's value. *)
Lemma obj_get_spread k src target :
  obj_get k (obj_spread src target) =
  match obj_get k src with
  | Some v => Some v
  | None => obj_get k target
  end.
Proof.
  unfold obj_spread.
  assert (G : forall ks t,
    obj_get k (fold_left
      (fun acc k0 => match obj_get k0 src with
                     | Some v => obj_set k0 v acc
                     | None => acc
                     end) ks t) =
    match obj_get k src with
    | Some v => if existsb (String.eqb k) ks then Some v else obj_get k t
    | None => obj_get k t
    end).
  { induction ks as [|k0 ks IH]; intros t; simpl.
    - now destruct (obj_get k src).
    - rewrite IH. destruct (obj_get k src) as [v|] eqn:Ek.
      + destruct (String.eqb_spec k k0) as [<-|Hne]; simpl.
        * rewrite Ek, obj_get_set_eq. now destruct (existsb _ ks).
        * destruct (existsb _ ks); [reflexivity|].
          destruct (obj_get k0 src); [now apply obj_get_set_neq | reflexivity].
      + destruct (obj_get k0 src) as [v0|] eqn:E0; [|reflexivity].
        apply obj_get_set_neq. intros ->. congruence. }
  rewrite G. destruct (obj_get k src) as [v|] eqn:Ek; [|reflexivity].
  assert (Hin : In k (Object_keys src)).
  { apply obj_has_true. unfold obj_has. now rewrite Ek. }
  assert (Hex : existsb (String.eqb k) (Object_keys src) = true).
  { apply existsb_exists. exists k. split; [exact Hin | apply String.eqb_refl]. }
  now rewrite Hex.
Qed.

(** *** An object never lists a key twice *)

Lemma Object_keys_replace k v o :
  Object_keys (obj_replace k v o) = Object_keys o.
Proof.
  induction o as [|[k' v'] o IH]; simpl; [reflexivity|].
  destruct (String.eqb_spec k' k) as [->|Hne]; simpl; [reflexivity|].
  now rewrite IH.
Qed.

Lemma Object_keys_add k k1 v o :
  In k1 (Object_keys (obj_add k v o)) <-> k1 = k \/ In k1 (Object_keys o).
Proof.
  induction o as [|[k' v'] o IH]; simpl.
  - intuition.
  - destruct (key_before k k'); simpl; [intuition|].
    rewrite IH. intuition.
Qed.

Lemma NoDup_keys_add k v o :
  ~ In k (Object_keys o) -> NoDup (Object_keys o) ->
  NoDup (Object_keys (obj_add k v o)).
Proof.
  induction o as [|[k' v'] o IH]; simpl; intros Hk Hnd.
  - constructor; [tauto | constructor].
  - destruct (key_before k k'); simpl.
    + constructor; [exact Hk | exact Hnd].
    + inversion Hnd as [|? ? Hk' Hnd']; subst. constructor.
      * rewrite Object_keys_add. intros [E|H]; [auto | contradiction].
      * apply IH; [tauto | exact Hnd'].
Qed.

Lemma NoDup_keys_set k v o :
  NoDup (Object_keys o) -> NoDup (Object_keys (obj_set k v o)).
Proof.
  intros Hnd. unfold obj_set. destruct (obj_has k o) eqn:E.
  - now rewrite Object_keys_replace.
  - apply NoDup_keys_add; [now apply obj_has_false | exact Hnd].
Qed.

Lemma NoDup_keys_spread src target :
  NoDup (Object_keys target) -> NoDup (Object_keys (obj_spread src target)).
Proof.
  unfold obj_spread. generalize (Object_keys src) as ks. intros ks. revert target.
  induction ks as [|k0 ks IH]; intros t Hnd; simpl; [exact Hnd|].
  apply IH. destruct (obj_get k0 src); [now apply NoDup_keys_set | exact Hnd].
Qed.

(** With no key listed twice, a property in the list is the one [obj_get]
    finds. *)
Lemma obj_get_unique k v o :
  NoDup (Object_keys o) -> In (k, v) o -> obj_get k o = Some v.
Proof.
  induction o as [|[k' v'] o IH]; simpl; intros Hnd Hin; [contradiction|].
  inversion Hnd as [|? ? Hk' Hnd']; subst.
  destruct Hin as [[= -> ->]|Hin].
  - now rewrite String.eqb_refl.
  - destruct (String.eqb_spec k' k) as [->|Hne]; [|auto].
    exfalso. apply Hk'. change (In (fst (k, v)) (map fst o)). now apply in_map.
Qed.

End ObjectFacts.

(* ================================================================== *)
(** ** Row extractor: which name a row gets, and which rows are kept *)
(* ================================================================== *)

Section RowFacts.
Implicit Types (row : Row) (x y z : option string).

Lemma or_else_assoc x y z : (x ||| y) ||| z = x ||| (y ||| z).
Proof. unfold or_else. destruct (truthy x) eqn:E; [now rewrite E | reflexivity]. Qed.

Lemma or_else_falsy x y : truthy x = false -> x ||| y = y.
Proof. unfold or_else. now intros ->. Qed.

Lemma or_else_truthy x y : truthy x = true -> x ||| y = x.
Proof. unfold or_else. now intros ->. Qed.

Lemma Object_values_first row : nth_error (Object_values row) 0 = first_value row.
Proof. now destruct row as [|[k v] row]. Qed.

(** The chain of [||] is the right-nested one over the alias list. *)
Lemma companyName_resolve row :
  companyName row = resolve aliases (first_value row) row.
Proof.
  unfold companyName. rewrite Object_values_first, !or_else_assoc. reflexivity.
Qed.

Lemma resolve_find names fallback row :
  resolve names fallback row =
  match find (fun a => truthy (obj_get a row)) names with
  | Some a => obj_get a row
  | None => fallback
  end.
Proof.
  induction names as [|a names IH]; simpl; [reflexivity|].
  unfold or_else at 1. destruct (truthy (obj_get a row)); [reflexivity | exact IH].
Qed.

Lemma companyName_derive row : companyName row = derive_name row.
Proof. rewrite companyName_resolve. apply resolve_find. Qed.

(** An alias whose cell is the empty string is passed over. *)
Lemma resolve_skips_empty names fallback row a :
  obj_get a row = Some "" ->
  resolve names fallback row = resolve (remove string_dec a names) fallback row.
Proof.
  intros He. induction names as [|b names IH]; simpl; [reflexivity|].
  destruct (string_dec a b) as [<-|Hne].
  - rewrite He. rewrite or_else_falsy by reflexivity. exact IH.
  - simpl. now rewrite IH.
Qed.

(** So is an alias that the row does not have as a column. *)
Lemma resolve_skips_missing names fallback row a :
  obj_get a row = None ->
  resolve names fallback row = resolve (remove string_dec a names) fallback row.
Proof.
  intros He. induction names as [|b names IH]; simpl; [reflexivity|].
  destruct (string_dec a b) as [<-|Hne].
  - rewrite He. rewrite or_else_falsy by reflexivity. exact IH.
  - simpl. now rewrite IH.
Qed.

Lemma on_data_spec companies row :
  on_data companies row =
  if resolvable row then (companies ++ [company_of row])%list else companies.
Proof.
  unfold on_data, resolvable, company_of. rewrite companyName_derive.
  destruct (derive_name row) as [n|]; reflexivity.
Qed.

Lemma fold_on_data rs : forall acc,
  fold_left on_data rs acc = (acc ++ map company_of (filter resolvable rs))%list.
Proof.
  induction rs as [|r rs IH]; intros acc; simpl.
  - now rewrite app_nil_r.
  - rewrite IH, on_data_spec. destruct (resolvable r); simpl; [|reflexivity].
    now rewrite <- app_assoc.
Qed.

Lemma collect_spec rs : collect rs = map company_of (filter resolvable rs).
Proof. unfold collect. now rewrite fold_on_data. Qed.

Lemma filter_idem (A : Type) (p : A -> bool) (l : list A) :
  filter p (filter p l) = filter p l.
Proof.
  induction l as [|x l IH]; simpl; [reflexivity|].
  destruct (p x) eqn:E; simpl; [rewrite E|]; now rewrite ?IH.
Qed.

Lemma collect_filter rs : collect (filter resolvable rs) = collect rs.
Proof. now rewrite !collect_spec, filter_idem. Qed.

Lemma collect_length rs :
  List.length (collect rs) = List.length (filter resolvable rs).
Proof. now rewrite collect_spec, length_map. Qed.

End RowFacts.

(* ================================================================== *)
(** ** Enrichment client: what the pattern matches *)
(* ================================================================== *)

Section PatternFacts.

Lemma space_or_not_any c : space_or_not c = true.
Proof. unfold space_or_not. apply orb_negb_r. Qed.

(** After the opening brace, the greedy star followed by the closing brace
    runs to the last closing brace. *)
Lemma star_then_brace s :
  match_here [StarClass space_or_not; Lit "}"] s = upto_last "}" s.
Proof.
  induction s as [|a s IH]; [reflexivity|].
  cbn [match_here upto_last] in *. rewrite space_or_not_any, IH.
  destruct (upto_last "}" s); [reflexivity|].
  now destruct (a =? "}")%char.
Qed.

Lemma substring_0_0 s : substring 0 0 s = "".
Proof. now destruct s. Qed.

Lemma upto_last_index c s :
  upto_last c s = option_map (fun j => substring 0 (S j) s) (last_index c s).
Proof.
  induction s as [|a s IH]; simpl; [reflexivity|].
  rewrite IH. destruct (last_index c s) as [j|]; simpl; [reflexivity|].
  destruct (a =? c)%char; simpl; [now rewrite substring_0_0 | reflexivity].
Qed.

Lemma match_here_json a s :
  match_here json_re (String a s) =
  if (a =? "{")%char then option_map (String a) (upto_last "}" s) else None.
Proof.
  unfold json_re. cbn [match_here]. destruct (a =? "{")%char; [|reflexivity].
  f_equal. apply (star_then_brace s).
Qed.

Lemma last_index_tail c a s :
  last_index c (String a s) = None -> last_index c s = None.
Proof. simpl. now destruct (last_index c s). Qed.

(** Without a closing brace nothing matches. *)
Lemma regex_match_no_close s :
  last_index "}" s = None -> regex_match json_re s = None.
Proof.
  induction s as [|a s IH]; intros Hl; [reflexivity|].
  pose proof (last_index_tail _ _ _ Hl) as Hs.
  cbn [regex_match]. rewrite match_here_json, upto_last_index, Hs. simpl.
  destruct (a =? "{")%char; auto.
Qed.

(** The pattern matches from the first opening brace to the last closing
    brace, and has no match when no closing brace follows an opening one. *)
Lemma regex_match_brace_span s : regex_match json_re s = brace_span s.
Proof.
  unfold brace_span. induction s as [|a s IH]; [reflexivity|].
  cbn [regex_match]. rewrite match_here_json, upto_last_index.
  cbn [first_index last_index].
  destruct (Ascii.eqb_spec a "{") as [->|Hne].
  - destruct (last_index "}" s) as [j|] eqn:Ej; simpl.
    + now rewrite Nat.add_1_r.
    + now apply regex_match_no_close.
  - rewrite IH. destruct (first_index "{" s) as [i|]; simpl.
    + destruct (last_index "}" s) as [j|]; simpl.
      * change (S i <? S j)%nat with (i <? j)%nat. destruct (i <? j)%nat; reflexivity.
      * now destruct (a =? "}")%char.
    + destruct (last_index "}" s); [reflexivity|].
      now destruct (a =? "}")%char.
Qed.

End PatternFacts.

(* ================================================================== *)
(** ** The batch loop *)
(* ================================================================== *)

Section LoopFacts.

Variable JSON_parse : string -> option EnrichedData.
Variable messages_create : nat -> CreateParams -> ServiceReply.
Variable now_toISOString : nat -> string.

Local Abbreviation enrichCompany := (enrichCompany JSON_parse messages_create).
Local Abbreviation enrich_step := (enrich_step JSON_parse messages_create now_toISOString).
Local Abbreviation enrich_loop := (enrich_loop JSON_parse messages_create now_toISOString).

(** The row that round [i] of the loop pushes for [company]. *)
Definition row_at (i : nat) (company : Company) : ResultRow :=
  row_for (enrichCompany i (name company)) company (now_toISOString i).

Lemma enrich_step_push i company results :
  enrich_step i company results = (results ++ [row_at i company])%list.
Proof.
  unfold Handler.enrich_step, row_at, row_for.
  now destruct (enrichCompany i (name company)).
Qed.

Lemma enrich_loop_app batch : forall i results,
  enrich_loop i batch results = (results ++ enrich_loop i batch [])%list.
Proof.
  induction batch as [|c batch IH]; intros i results; simpl.
  - now rewrite app_nil_r.
  - rewrite IH, (IH (S i) (enrich_step i c [])), !enrich_step_push.
    now rewrite app_assoc.
Qed.

Lemma enrich_loop_cons i c batch :
  enrich_loop i (c :: batch) [] = row_at i c :: enrich_loop (S i) batch [].
Proof. simpl. now rewrite enrich_loop_app, enrich_step_push. Qed.

(** Every company of the batch gets one row, whatever its outcome. *)
Lemma enrich_loop_length batch : forall i,
  List.length (enrich_loop i batch []) = List.length batch.
Proof.
  induction batch as [|c batch IH]; intros i; [reflexivity|].
  rewrite enrich_loop_cons. simpl. now rewrite IH.
Qed.

Lemma enrich_loop_nth batch : forall i j c,
  nth_error batch j = Some c ->
  nth_error (enrich_loop i batch []) j = Some (row_at (i + j) c).
Proof.
  induction batch as [|c0 batch IH]; intros i j c Hj.
  - now destruct j.
  - rewrite enrich_loop_cons. destruct j as [|j]; simpl in *.
    + injection Hj as ->. now rewrite Nat.add_0_r.
    + rewrite (IH (S i) j c Hj). f_equal. f_equal. lia.
Qed.

Lemma enrich_loop_nth_inv batch j r :
  nth_error (enrich_loop 0 batch []) j = Some r ->
  exists c, nth_error batch j = Some c /\ r = row_at j c.
Proof.
  intros Hr.
  assert (Hlt : j < List.length batch).
  { rewrite <- (enrich_loop_length batch 0). apply nth_error_Some. congruence. }
  destruct (nth_error batch j) as [c|] eqn:Ec.
  - exists c. split; [reflexivity|].
    rewrite (enrich_loop_nth batch 0 j c Ec) in Hr. now injection Hr as <-.
  - apply nth_error_None in Ec. lia.
Qed.

End LoopFacts.

(* ================================================================== *)
(** ** Result rows *)
(* ================================================================== *)

Section RowShape.
Implicit Types (company : Company) (d : EnrichedData) (k : string).

Lemma obj_get_cells k (row : Row) :
  obj_get k (cells row) = option_map Str (obj_get k row).
Proof.
  unfold cells. induction row as [|[k' v'] row IH]; simpl; [reflexivity|].
  now destruct (k' =? k)%string.
Qed.

Lemma obj_get_nil (V : Type) k : obj_get k (@nil (string * V)) = None.
Proof. reflexivity. Qed.

(** The copy of the original row that both kinds of result row start from. *)
Lemma obj_get_original k company :
  obj_get k (obj_spread (cells (originalRow company)) []) =
  option_map Str (obj_get k (originalRow company)).
Proof.
  rewrite obj_get_spread, obj_get_cells.
  now destruct (obj_get k (originalRow company)).
Qed.

Lemma failed_row_error company :
  obj_get "error" (failed_row company) = Some (Str "Enrichment failed").
Proof. apply obj_get_set_eq. Qed.

Lemma failed_row_other k company :
  k <> "error" ->
  obj_get k (failed_row company) = option_map Str (obj_get k (originalRow company)).
Proof.
  intros Hk. unfold failed_row.
  now rewrite obj_get_set_neq, obj_get_original.
Qed.

Lemma enriched_row_cost company d t :
  obj_get "enrichment_cost" (enriched_row company d t) = Some (Num 0.15%float).
Proof.
  unfold enriched_row. rewrite obj_get_set_neq by discriminate.
  apply obj_get_set_eq.
Qed.

Lemma enriched_row_time company d t :
  obj_get "enriched_at" (enriched_row company d t) = Some (Str t).
Proof. apply obj_get_set_eq. Qed.

Lemma enriched_row_other k company d t :
  k <> "enrichment_cost" -> k <> "enriched_at" ->
  obj_get k (enriched_row company d t) =
  match obj_get k d with
  | Some v => Some v
  | None => option_map Str (obj_get k (originalRow company))
  end.
Proof.
  intros Hc Ht. unfold enriched_row.
  now rewrite !obj_get_set_neq, obj_get_spread, obj_get_original.
Qed.

Lemma enriched_row_NoDup company d t :
  NoDup (Object_keys (enriched_row company d t)).
Proof.
  unfold enriched_row. do 2 apply NoDup_keys_set. do 2 apply NoDup_keys_spread.
  constructor.
Qed.

Lemma failed_row_NoDup company : NoDup (Object_keys (failed_row company)).
Proof.
  unfold failed_row. apply NoDup_keys_set, NoDup_keys_spread. constructor.
Qed.

Lemma EnrichedData_fields_kept :
  Forall (fun k => k <> "enrichment_cost" /\ k <> "enriched_at") EnrichedData_fields.
Proof. repeat constructor; discriminate. Qed.

End RowShape.

(* ================================================================== *)
(** ** The endpoint *)
(* ================================================================== *)

Section EndpointFacts.

Variable csv : string -> Trace.
Variable JSON_parse : string -> option EnrichedData.
Variable messages_create : nat -> CreateParams -> ServiceReply.
Variable now_toISOString : nat -> string.

Local Abbreviation enrichCompany := (enrichCompany JSON_parse messages_create).
Local Abbreviation enrich_loop := (enrich_loop JSON_parse messages_create now_toISOString).
Local Abbreviation respond := (respond JSON_parse messages_create now_toISOString).
Local Abbreviation enrich := (enrich csv JSON_parse messages_create now_toISOString).

Lemma respond_end trace :
  finish trace = StreamEnd ->
  respond trace = Status200 (summary (enrich_loop 0 (batch_of trace) [])).
Proof. unfold Handler.respond, batch_of. now intros ->. Qed.

Lemma respond_200 trace body :
  respond trace = Status200 body ->
  finish trace = StreamEnd /\ body = summary (enrich_loop 0 (batch_of trace) []).
Proof.
  unfold Handler.respond, batch_of. destruct (finish trace); [|discriminate].
  intros [= <-]. now split.
Qed.

Lemma enrich_200 req body :
  enrich req = Status200 body ->
  exists f, file req = Some f /\ respond (csv (buffer f)) = Status200 body.
Proof.
  unfold Handler.enrich. destruct (file req) as [f|]; [|discriminate].
  intros H. now exists f.
Qed.

Lemma batch_of_length trace :
  List.length (batch_of trace) =
  Nat.min (List.length (filter resolvable (rows trace))) 50.
Proof.
  unfold batch_of, batch_limit. rewrite length_firstn, collect_length. apply Nat.min_comm.
Qed.

(** C1: when the upload parses to the end, the reply is a 200 whose [data]
    has min(number of rows with a resolvable name, 50) rows, with
    [total_processed] the same number; the reply is settled by the first
    fifty companies alone, so any upload that agrees on them gets the same
    reply and nothing in it tells of the rows left out. *)
Theorem output_length_capped (f : File) :
  finish (csv (buffer f)) = StreamEnd ->
  exists body,
    enrich (mkRequest (Some f)) = Status200 body
    /\ List.length (data body) =
       Nat.min (List.length (filter resolvable (rows (csv (buffer f))))) 50
    /\ total_processed body = List.length (data body)
    /\ forall trace',
         finish trace' = StreamEnd ->
         firstn 50 (collect (rows trace')) =
         firstn 50 (collect (rows (csv (buffer f)))) ->
         respond trace' = Status200 body.
Proof.
  intros Hend. eexists. split; [|split; [|split]].
  - unfold Handler.enrich. simpl. apply respond_end, Hend.
  - simpl. now rewrite enrich_loop_length, batch_of_length.
  - reflexivity.
  - intros trace' Hend' Hsame. rewrite (respond_end trace' Hend').
    unfold batch_of, batch_limit. now rewrite Hsame.
Qed.

(** Up to the batch limit the product by ten is a whole number and exact. *)
Lemma times_ten_exact n :
  n <= 50 -> (Number_of_nat n * 10)%float = Number_of_nat (10 * n).
Proof.
  intros H. do 51 (destruct n as [|n]; [vm_compute; reflexivity|]). lia.
Qed.

(** C2: in every 200 reply [total_processed] is the number of rows in [data],
    one for each company of the batch whether its enrichment succeeded or
    failed, and the other three numbers are, in the arithmetic of JavaScript
    numbers, [total_processed * 0.15], [total_processed * 10] and the
    difference of these two; the product by ten is exact. *)
Theorem summary_arithmetic (req : Request) (body : Summary) :
  enrich req = Status200 body ->
  success body = true
  /\ total_processed body = List.length (data body)
  /\ (exists f, file req = Some f
        /\ List.length (data body) = List.length (batch_of (csv (buffer f))))
  /\ estimated_cost body = (Number_of_nat (total_processed body) * 0.15)%float
  /\ retail_value body = (Number_of_nat (total_processed body) * 10)%float
  /\ margin body = (retail_value body - estimated_cost body)%float
  /\ retail_value body = Number_of_nat (10 * total_processed body).
Proof.
  intros H. destruct (enrich_200 req body H) as (f & Hf & Hr).
  destruct (respond_200 _ _ Hr) as [_ ->]. simpl.
  do 2 (split; [reflexivity|]).
  split; [exists f; split; [exact Hf | apply enrich_loop_length]|].
  do 3 (split; [reflexivity|]).
  apply times_ten_exact. rewrite enrich_loop_length, batch_of_length. apply Nat.le_min_r.
Qed.

(** C3: the name of a row is the cell of the first of [company], [Company],
    [business_name], [Company Name] that holds a non-empty string, else the
    first value of the row; the companies are the rows whose name so derived
    is a non-empty string, in order; and the rows without one change nothing
    in the reply, [total_processed] included. *)
Theorem name_derivation_and_exclusion :
  aliases = ["company"; "Company"; "business_name"; "Company Name"]
  /\ (forall row, companyName row = derive_name row)
  /\ (forall rs, collect rs = map company_of (filter resolvable rs))
  /\ (forall rs fin,
        respond (mkTrace rs fin) = respond (mkTrace (filter resolvable rs) fin)).
Proof.
  split; [reflexivity|]. split; [exact companyName_derive|].
  split; [exact collect_spec|].
  intros rs fin. unfold Handler.respond. simpl. now rewrite collect_filter.
Qed.

(** C4: when the service resolves with a first block of text, the client
    takes the text from the first opening brace to the last closing brace
    and hands it to [JSON.parse]: no such text is [NoJsonFound], a text that
    does not parse is [MalformedJson], and a parsed object is returned as it
    is, whatever its fields. *)
Theorem reply_extraction (call : nat) (companyName responseText : string)
    (rest : list ContentBlock) :
  messages_create call (create_params companyName)
    = Resolves (mkBlock (Some responseText) :: rest) ->
  regex_match json_re responseText = brace_span responseText
  /\ enrichCompany call companyName =
     match brace_span responseText with
     | None => inl NoJsonFound
     | Some jsonText =>
         match JSON_parse jsonText with
         | None => inl MalformedJson
         | Some parsed => inr parsed
         end
     end.
Proof.
  intros Hreply. split; [apply regex_match_brace_span|].
  unfold EnrichmentClient.enrichCompany. rewrite Hreply. simpl.
  unfold parse_reply. now rewrite regex_match_brace_span.
Qed.

(** C5: when the enrichment of the [i]-th company of the batch fails, for
    whatever reason, the reply is still a 200; its [i]-th row is the
    company's original row with [error: "Enrichment failed"]; every company
    of the batch, the later ones too, has its own row at its own place; and
    [total_processed] counts the whole batch. *)
Theorem failure_keeps_batch_going (trace : Trace) (i : nat) (company : Company)
    (e : EnrichmentError) :
  finish trace = StreamEnd ->
  nth_error (batch_of trace) i = Some company ->
  enrichCompany i (name company) = inl e ->
  exists body,
    respond trace = Status200 body
    /\ nth_error (data body) i = Some (failed_row company)
    /\ obj_get "error" (failed_row company) = Some (Str "Enrichment failed")
    /\ (forall k, k <> "error" ->
          obj_get k (failed_row company)
          = option_map Str (obj_get k (originalRow company)))
    /\ (forall j c, nth_error (batch_of trace) j = Some c ->
          nth_error (data body) j
          = Some (row_at JSON_parse messages_create now_toISOString j c))
    /\ total_processed body = List.length (batch_of trace).
Proof.
  intros Hend Hi He. eexists. split; [apply respond_end, Hend|]. simpl.
  split; [|split; [|split; [|split]]].
  - rewrite (enrich_loop_nth _ _ _ _ 0 i company Hi). simpl.
    unfold row_at, row_for. now rewrite He.
  - apply failed_row_error.
  - intros k Hk. now apply failed_row_other.
  - intros j c Hj. now rewrite (enrich_loop_nth _ _ _ _ 0 j c Hj).
  - apply enrich_loop_length.
Qed.

(** The two shapes of a result row, for any clock. *)
Lemma result_row_cases (trace : Trace) (body : Summary) (i : nat)
    (r : ResultRow) :
  respond trace = Status200 body ->
  nth_error (data body) i = Some r ->
  exists company,
    nth_error (batch_of trace) i = Some company
    /\ match enrichCompany i (name company) with
       | inr d =>
           r = enriched_row company d (now_toISOString i)
           /\ obj_get "enrichment_cost" r = Some (Num 0.15%float)
           /\ obj_get "enriched_at" r = Some (Str (now_toISOString i))
           /\ (forall k, k <> "enrichment_cost" -> k <> "enriched_at" ->
                 obj_get k r =
                 match obj_get k d with
                 | Some v => Some v
                 | None => option_map Str (obj_get k (originalRow company))
                 end)
       | inl _ =>
           r = failed_row company
           /\ obj_get "error" r = Some (Str "Enrichment failed")
           /\ (forall k, k <> "error" ->
                 obj_get k r = option_map Str (obj_get k (originalRow company)))
       end.
Proof.
  intros Hr Hi. destruct (respond_200 _ _ Hr) as [_ ->]. simpl in Hi.
  destruct (enrich_loop_nth_inv _ _ _ _ _ _ Hi) as (company & Hc & ->).
  exists company. split; [exact Hc|].
  unfold row_at, row_for. destruct (enrichCompany i (name company)) as [e|d].
  - split; [reflexivity|]. split; [apply failed_row_error|].
    intros k Hk. now apply failed_row_other.
  - split; [reflexivity|]. split; [apply enriched_row_cost|].
    split; [apply enriched_row_time|].
    intros k H1 H2. now apply enriched_row_other.
Qed.

(** C7: an upload that parses to the end and has no row with a resolvable
    name is answered with [success: true], zero for the four numbers and an
    empty [data]. *)
Theorem no_companies_response (f : File) :
  finish (csv (buffer f)) = StreamEnd ->
  filter resolvable (rows (csv (buffer f))) = [] ->
  enrich (mkRequest (Some f))
  = Status200 (mkSummary true 0 0%float 0%float 0%float []).
Proof.
  intros Hend Hnone. unfold Handler.enrich. simpl.
  rewrite (respond_end _ Hend). unfold batch_of.
  rewrite collect_spec, Hnone. reflexivity.
Qed.



(** C10: after a successful enrichment, a field of the parsed object (other
    than the two the handler writes last, which none of the eleven fields of
    the prompt is) has in the result row the value the service gave: the row
    lists the key once, so a cell of that name in the upload is gone. *)
Theorem enriched_fields_overwrite (trace : Trace) (body : Summary) (i : nat)
    (company : Company) (d : EnrichedData) (k : string) (v : Value) :
  respond trace = Status200 body ->
  nth_error (batch_of trace) i = Some company ->
  enrichCompany i (name company) = inr d ->
  obj_get k d = Some v ->
  k <> "enrichment_cost" -> k <> "enriched_at" ->
  exists r,
    nth_error (data body) i = Some r
    /\ obj_get k r = Some v
    /\ forall v', In (k, v') r -> v' = v.
Proof.
  intros Hr Hi Hd Hk H1 H2. destruct (respond_200 _ _ Hr) as [_ ->]. simpl.
  rewrite (enrich_loop_nth _ _ _ _ 0 i company Hi). simpl.
  unfold row_at, row_for. rewrite Hd. eexists. split; [reflexivity|].
  assert (Hget : obj_get k (enriched_row company d (now_toISOString i)) = Some v).
  { rewrite enriched_row_other by assumption. now rewrite Hk. }
  split; [exact Hget|]. intros v' Hin.
  apply (obj_get_unique _ _ _ (enriched_row_NoDup _ _ _)) in Hin. congruence.
Qed.

End EndpointFacts.

(** C9: an alias column that holds the empty string is passed over exactly
    as one that the row does not have, so the name comes from the aliases
    after it or from the first value of the row; and a row whose candidate
    is the empty string is left out just as a row with no candidate is. *)
Theorem empty_cell_falls_through :
  (forall row a, obj_get a row = Some "" \/ obj_get a row = None ->
     companyName row = resolve (remove string_dec a aliases) (first_value row) row)
  /\ (forall row companies,
        companyName row = Some "" \/ companyName row = None ->
        on_data companies row = companies)
  /\ (forall row, companyName row = Some "" -> collect [row] = collect []).
Proof.
  split; [|split].
  - intros row a [H|H]; rewrite companyName_resolve.
    + now apply resolve_skips_empty.
    + now apply resolve_skips_missing.
  - intros row companies [H|H]; unfold on_data; now rewrite H.
  - intros row H. unfold collect. simpl. unfold on_data. now rewrite H.
Qed.

(* ================================================================== *)
(** ** The time stamp *)
(* ================================================================== *)

Section DateFacts.
Local Open Scope Z_scope.

Lemma civil_from_days_bounds (days : Z) :
  let '(_, m, d) := JsDate.civil_from_days days in
  1 <= m <= 12 /\ 1 <= d <= 31.
Proof.
  unfold JsDate.civil_from_days. cbv zeta.
  set (z := days + 719468).
  assert (Hdoe : 0 <= z - z / 146097 * 146097 < 146097)
    by (Z.div_mod_to_equations; lia).
  set (doe := z - z / 146097 * 146097) in *. clearbody doe. clear z.
  Z.div_mod_to_equations.
  destruct (_ <? 10) eqn:E; [apply Z.ltb_lt in E | apply Z.ltb_ge in E]; lia.
Qed.

Lemma digit_facts (d : Z) :
  0 <= d < 10 ->
  is_digit (JsDate.digit d) = true
  /\ digit_value (JsDate.digit d) = d
  /\ ((JsDate.digit d =? "+") || (JsDate.digit d =? "-"))%char = false.
Proof.
  intros H.
  assert (C : d = 0 \/ d = 1 \/ d = 2 \/ d = 3 \/ d = 4 \/ d = 5 \/ d = 6
              \/ d = 7 \/ d = 8 \/ d = 9) by lia.
  repeat (destruct C as [->|C]; [repeat split; reflexivity|]).
  subst. repeat split; reflexivity.
Qed.

Lemma take_digits_pad (w : nat) : forall n rest acc,
  0 <= n ->
  take_digits w (JsDate.pad w n ++ rest)%string acc
  = Some (acc * 10 ^ Z.of_nat w + n mod 10 ^ Z.of_nat w, rest).
Proof.
  induction w as [|w IH]; intros n rest acc Hn.
  - simpl. rewrite Z.mod_1_r. f_equal. f_equal. lia.
  - cbn [JsDate.pad take_digits append].
    set (p := 10 ^ Z.of_nat w).
    assert (Hp : 0 < p) by (apply Z.pow_pos_nonneg; lia).
    assert (Hd : 0 <= (n / p) mod 10 < 10) by (apply Z.mod_pos_bound; lia).
    destruct (digit_facts _ Hd) as (-> & -> & _).
    rewrite (IH n rest _ Hn). fold p. f_equal. f_equal.
    rewrite Nat2Z.inj_succ, Z.pow_succ_r by lia. fold p.
    rewrite (Z.mul_comm 10 p), (Z.rem_mul_r n p 10) by lia. ring.
Qed.

Lemma number_pad (w : nat) (lo hi n : Z) (rest : string) :
  0 <= n < 10 ^ Z.of_nat w -> lo <= n <= hi ->
  number w lo hi (JsDate.pad w n ++ rest)%string = Some rest.
Proof.
  intros Hn Hr. unfold number. rewrite take_digits_pad by lia.
  rewrite Z.mod_small by exact Hn. simpl.
  destruct (Z.leb_spec lo n); [|lia]. destruct (Z.leb_spec n hi); [|lia].
  reflexivity.
Qed.

Lemma number_pad_any (w : nat) (n : Z) (rest : string) :
  0 <= n ->
  number w 0 (10 ^ Z.of_nat w - 1) (JsDate.pad w n ++ rest)%string = Some rest.
Proof.
  intros Hn. unfold number. rewrite take_digits_pad by lia.
  pose proof (Z.mod_pos_bound n (10 ^ Z.of_nat w)
                ltac:(apply Z.pow_pos_nonneg; lia)) as Hb.
  replace (0 * 10 ^ Z.of_nat w + n mod 10 ^ Z.of_nat w)
    with (n mod 10 ^ Z.of_nat w) by lia.
  destruct (Z.leb_spec 0 (n mod 10 ^ Z.of_nat w)); [|lia].
  destruct (Z.leb_spec (n mod 10 ^ Z.of_nat w) (10 ^ Z.of_nat w - 1)); [|lia].
  reflexivity.
Qed.

Lemma year_part_text (y : Z) (rest : string) :
  year_part (JsDate.year_text y ++ rest)%string = Some rest.
Proof.
  unfold JsDate.year_text.
  destruct (Z.leb_spec 0 y) as [H0|H0]; [destruct (Z.leb_spec y 9999) as [H1|H1]|];
    cbn [andb].
  - pose proof (number_pad 4 0 9999 y rest ltac:(simpl; lia) ltac:(lia)) as H.
    assert (Hd : 0 <= (y / 10 ^ Z.of_nat 3) mod 10 < 10) by (apply Z.mod_pos_bound; lia).
    destruct (digit_facts _ Hd) as (_ & _ & Hsign).
    cbn [JsDate.pad append] in *. unfold year_part.
    match goal with
    | |- (if ?b then _ else _) = _ =>
        replace b with false by (symmetry; exact Hsign)
    end.
    exact H.
  - destruct (Z.ltb_spec y 0); [lia|].
    exact (number_pad_any 6 (Z.abs y) rest ltac:(lia)).
  - destruct (Z.ltb_spec y 0); [|lia].
    exact (number_pad_any 6 (Z.abs y) rest ltac:(lia)).
Qed.

Lemma expect_lit (c : ascii) (rest : string) :
  expect c (String c "" ++ rest)%string = Some rest.
Proof. simpl. now rewrite Ascii.eqb_refl. Qed.

(** Whatever the time value, [toISOString] writes an ISO 8601 date and
    time. *)
Lemma toISOString_iso8601 (t : Z) : iso8601 (JsDate.toISOString t) = true.
Proof.
  unfold JsDate.toISOString, JsDate.msPerDay.
  destruct (JsDate.civil_from_days (t / 86400000)) as [[y m] d] eqn:E.
  pose proof (civil_from_days_bounds (t / 86400000)) as Hb. rewrite E in Hb.
  destruct Hb as [Hm Hd].
  pose proof (Z.mod_pos_bound t 86400000 ltac:(lia)) as Hms.
  set (ms := t mod 86400000) in *. clearbody ms.
  unfold iso8601. rewrite year_part_text. cbn [and_then].
  rewrite expect_lit. cbn [and_then].
  rewrite number_pad by (simpl; lia). cbn [and_then].
  rewrite expect_lit. cbn [and_then].
  rewrite number_pad by (simpl; lia). cbn [and_then].
  rewrite expect_lit. cbn [and_then].
  rewrite number_pad by (simpl; Z.div_mod_to_equations; lia). cbn [and_then].
  rewrite expect_lit. cbn [and_then].
  rewrite number_pad by (simpl; Z.div_mod_to_equations; lia). cbn [and_then].
  rewrite expect_lit. cbn [and_then].
  rewrite number_pad by (simpl; Z.div_mod_to_equations; lia). cbn [and_then].
  rewrite expect_lit. cbn [and_then].
  rewrite number_pad by (simpl; Z.div_mod_to_equations; lia). cbn [and_then].
  reflexivity.
Qed.

End DateFacts.

Section TimedRows.

Variable JSON_parse : string -> option EnrichedData.
Variable messages_create : nat -> CreateParams -> ServiceReply.
(** The time value of [new Date()] in the [i]-th round of the loop. *)
Variable now : nat -> Z.

Local Abbreviation enrichCompany := (enrichCompany JSON_parse messages_create).
Local Abbreviation respond :=
  (respond JSON_parse messages_create (fun i => JsDate.toISOString (now i))).

(** C6, as amended: the [i]-th row of a 200 reply belongs to the [i]-th
    company of the batch.  After a successful enrichment it is the original
    row overlaid with the parsed object, then [enrichment_cost] (0.15) and
    [enriched_at], the time of that round as an ISO 8601 time stamp.  After
    a failed enrichment it is the original row with [error] and nothing
    else: the two fields are not added to it. *)
Theorem result_row_shape (trace : Trace) (body : Summary) (i : nat)
    (r : ResultRow) :
  respond trace = Status200 body ->
  nth_error (data body) i = Some r ->
  exists company,
    nth_error (batch_of trace) i = Some company
    /\ match enrichCompany i (name company) with
       | inr d =>
           r = enriched_row company d (JsDate.toISOString (now i))
           /\ obj_get "enrichment_cost" r = Some (Num 0.15%float)
           /\ obj_get "enriched_at" r = Some (Str (JsDate.toISOString (now i)))
           /\ iso8601 (JsDate.toISOString (now i)) = true
           /\ (forall k, k <> "enrichment_cost" -> k <> "enriched_at" ->
                 obj_get k r =
                 match obj_get k d with
                 | Some v => Some v
                 | None => option_map Str (obj_get k (originalRow company))
                 end)
       | inl _ =>
           r = failed_row company
           /\ obj_get "error" r = Some (Str "Enrichment failed")
           /\ (forall k, k <> "error" ->
                 obj_get k r = option_map Str (obj_get k (originalRow company)))
       end.
Proof.
  intros Hr Hi.
  destruct (result_row_cases _ _ _ trace body i r Hr Hi) as (company & Hc & Hshape).
  exists company. split; [exact Hc|].
  destruct (enrichCompany i (name company)) as [e|d]; [exact Hshape|].
  destruct Hshape as (H1 & H2 & H3 & H4).
  repeat split; try assumption. apply toISOString_iso8601.
Qed.

End TimedRows.

(* ================================================================== *)
(** ** Worked examples *)
(* ================================================================== *)

Section Examples.

Let world (replies : list ServiceReply) (buf : string) : Response :=
  enrich Demo.csv Demo.JSON_parse (Demo.service replies) Demo.clock (Demo.upload buf).

(** Five companies, the third of which fails: five rows, four of them
    enriched, and the numbers of a batch of five. *)
Example five_companies_third_fails :
  world Demo.five_replies Demo.five =
  Status200
    (mkSummary true 5 0.75%float 50%float 49.25%float
       (map (fun cells =>
               match cells with
               | (c, i, true) =>
                   [("company", Str c); ("industry", Str "Tech");
                    ("enrichment_cost", Num 0.15%float);
                    ("enriched_at", Str "2024-05-01T12:00:00.000Z")]
               | (c, i, false) =>
                   [("company", Str c); ("industry", Str i);
                    ("error", Str "Enrichment failed")]
               end)
            [("Acme", "Anvils", true); ("Globex", "Energy", true);
             ("Initech", "Software", false); ("Hooli", "Search", true);
             ("Umbrella", "Pharma", true)])).
Proof. vm_compute. reflexivity. Qed.

(** The numbers are JavaScript's: three rows cost 0.44999999999999996. *)
Example three_rows_cost :
  estimated_cost (summary [[]; []; []]) = 0.44999999999999996%float
  /\ PrimFloat.eqb (estimated_cost (summary [[]; []; []])) 0.45%float = false.
Proof. split; reflexivity. Qed.

(** The clock at a few time values: the epoch and the millisecond before
    it, two leap days, the last four-digit year and the first year after
    it, year zero and the year before it, and both ends of the range. *)
Example toISOString_values :
  map JsDate.toISOString
    [0; -1; 951782400000; 1709164800000; 1714564800000; 253402300799999;
     253402300800000; -62167219200000; -62167219200001;
     8640000000000000; -8640000000000000]%Z
  = ["1970-01-01T00:00:00.000Z"; "1969-12-31T23:59:59.999Z";
     "2000-02-29T00:00:00.000Z"; "2024-02-29T00:00:00.000Z";
     "2024-05-01T12:00:00.000Z"; "9999-12-31T23:59:59.999Z";
     "+010000-01-01T00:00:00.000Z"; "0000-01-01T00:00:00.000Z";
     "-000001-12-31T23:59:59.999Z"; "+275760-09-13T00:00:00.000Z";
     "-271821-04-20T00:00:00.000Z"].
Proof. vm_compute. reflexivity. Qed.

(** What the ISO 8601 check refuses: a month 13, a missing [Z], a date
    written out. *)
Example iso8601_refuses :
  iso8601 "2024-13-01T12:00:00.000Z" = false
  /\ iso8601 "2024-05-01T12:00:00.000" = false
  /\ iso8601 "Wed May 01 2024" = false.
Proof. repeat split; reflexivity. Qed.

(** Lines that end in CRLF, an empty line and a short row: the carriage
    returns are gone, the empty line is a row without cells, and the short
    row has no [city]. *)
Example crlf_upload_rows :
  CsvParser.parse
    ("company,city" ++ String "013" nl ++ "Acme,Paris" ++ String "013" nl
     ++ String "013" nl ++ "Globex" ++ String "013" nl)
  = Some (mkTrace [[("company", "Acme"); ("city", "Paris")]; [];
                   [("company", "Globex")]] StreamEnd).
Proof. vm_compute. reflexivity. Qed.

(** The object is found inside prose and a code fence. *)
Example wrapped_reply_parses :
  parse_reply Demo.JSON_parse Demo.wrapped = inr Demo.tech_object.
Proof. vm_compute. reflexivity. Qed.

(** A closing brace before the only opening brace is no match. *)
Example braces_in_wrong_order :
  regex_match json_re "} then {" = None /\ brace_span "} then {" = None.
Proof. split; reflexivity. Qed.

End Examples.

(* ================================================================== *)
(** ** The theorems at concrete uploads *)
(* ================================================================== *)

(** Sixty named rows: the reply has fifty. *)
Lemma output_length_capped_witness :
  finish (Demo.csv Demo.sixty) = StreamEnd
  /\ exists body,
       enrich Demo.csv Demo.JSON_parse (Demo.service []) Demo.clock
         (Demo.upload Demo.sixty) = Status200 body
       /\ List.length (data body) = 50
       /\ total_processed body = 50.
Proof.
  assert (H : finish (Demo.csv (buffer (mkFile Demo.sixty))) = StreamEnd)
    by (vm_compute; reflexivity).
  split; [exact H|].
  destruct (output_length_capped Demo.csv Demo.JSON_parse (Demo.service [])
              Demo.clock (mkFile Demo.sixty) H) as (body & Hb & Hl & Ht & _).
  exists body. split; [exact Hb|].
  rewrite Ht, Hl. split; vm_compute; reflexivity.
Defined.

Lemma summary_arithmetic_witness :
  exists body,
    enrich Demo.csv Demo.JSON_parse (Demo.service Demo.five_replies) Demo.clock
      (Demo.upload Demo.five) = Status200 body
    /\ total_processed body = List.length (data body)
    /\ estimated_cost body = (Number_of_nat (total_processed body) * 0.15)%float
    /\ retail_value body = (Number_of_nat (total_processed body) * 10)%float
    /\ margin body = (retail_value body - estimated_cost body)%float.
Proof.
  destruct (enrich Demo.csv Demo.JSON_parse (Demo.service Demo.five_replies)
              Demo.clock (Demo.upload Demo.five)) as [body|err] eqn:E;
    [|vm_compute in E; discriminate E].
  exists body. split; [reflexivity|].
  destruct (summary_arithmetic _ _ _ _ _ _ E) as (_ & Ht & _ & Hc & Hv & Hm & _).
  repeat split; assumption.
Defined.

Lemma reply_extraction_witness :
  Demo.service [Demo.says Demo.wrapped] 0 (create_params "Acme")
    = Resolves [mkBlock (Some Demo.wrapped)]
  /\ enrichCompany Demo.JSON_parse (Demo.service [Demo.says Demo.wrapped]) 0 "Acme"
     = inr Demo.tech_object.
Proof.
  assert (H : Demo.service [Demo.says Demo.wrapped] 0 (create_params "Acme")
              = Resolves [mkBlock (Some Demo.wrapped)]) by reflexivity.
  split; [exact H|].
  destruct (reply_extraction Demo.JSON_parse _ 0 "Acme" Demo.wrapped [] H) as [_ ->].
  vm_compute. reflexivity.
Defined.

(** Initech, the third of five, fails; Hooli after it is still enriched. *)
Lemma failure_keeps_batch_going_witness :
  let trace := Demo.csv Demo.five in
  let initech := mkCompany "Initech" [("company", "Initech"); ("industry", "Software")] in
  finish trace = StreamEnd
  /\ nth_error (batch_of trace) 2 = Some initech
  /\ enrichCompany Demo.JSON_parse (Demo.service Demo.five_replies) 2 (name initech)
     = inl NoJsonFound
  /\ exists body,
       respond Demo.JSON_parse (Demo.service Demo.five_replies) Demo.clock trace
         = Status200 body
       /\ nth_error (data body) 2 = Some (failed_row initech)
       /\ total_processed body = 5.
Proof.
  intros trace initech.
  assert (H1 : finish trace = StreamEnd) by (vm_compute; reflexivity).
  assert (H2 : nth_error (batch_of trace) 2 = Some initech) by (vm_compute; reflexivity).
  assert (H3 : enrichCompany Demo.JSON_parse (Demo.service Demo.five_replies) 2
                 (name initech) = inl NoJsonFound) by (vm_compute; reflexivity).
  repeat (split; [assumption|]).
  destruct (failure_keeps_batch_going Demo.JSON_parse (Demo.service Demo.five_replies)
              Demo.clock trace 2 initech NoJsonFound H1 H2 H3)
    as (body & Hb & Hrow & _ & _ & _ & Ht).
  exists body. split; [exact Hb|]. split; [exact Hrow|].
  rewrite Ht. vm_compute. reflexivity.
Defined.

(** C6 as worded fails: the row of a company whose call was rejected has
    neither [enrichment_cost] nor [enriched_at]. *)
Lemma failed_row_lacks_cost_and_time : ~ every_row_has_cost_and_time.
Proof.
  intros H.
  specialize (H Demo.csv Demo.JSON_parse (Demo.service [Rejects]) Demo.clock
                (Demo.upload Demo.one)
                (mkSummary true 1 0.15%float 10%float 9.85%float
                   [[("company", Str "Acme"); ("error", Str "Enrichment failed")]])).
  assert (E : enrich Demo.csv Demo.JSON_parse (Demo.service [Rejects]) Demo.clock
                (Demo.upload Demo.one)
              = Status200
                  (mkSummary true 1 0.15%float 10%float 9.85%float
                     [[("company", Str "Acme"); ("error", Str "Enrichment failed")]]))
    by (vm_compute; reflexivity).
  specialize (H E). simpl in H. inversion H as [|r rs [Hcost _] _]; subst.
  vm_compute in Hcost. discriminate Hcost.
Qed.

(** Of the five companies Acme is enriched and Initech fails: Acme's row has
    the cost and the time of its round, Initech's has neither. *)
Lemma result_row_shape_witness :
  let trace := Demo.csv Demo.five in
  exists body acme initech,
    respond Demo.JSON_parse (Demo.service Demo.five_replies)
      (fun i => JsDate.toISOString (Demo.now i)) trace = Status200 body
    /\ nth_error (data body) 0 = Some acme
    /\ nth_error (data body) 2 = Some initech
    /\ obj_get "enrichment_cost" acme = Some (Num 0.15%float)
    /\ obj_get "enriched_at" acme = Some (Str "2024-05-01T12:00:00.000Z")
    /\ iso8601 "2024-05-01T12:00:00.000Z" = true
    /\ obj_get "error" initech = Some (Str "Enrichment failed")
    /\ obj_get "enrichment_cost" initech = None
    /\ obj_get "enriched_at" initech = None.
Proof.
  intros trace.
  destruct (respond Demo.JSON_parse (Demo.service Demo.five_replies)
              (fun i => JsDate.toISOString (Demo.now i)) trace)
    as [body|err] eqn:E; [|vm_compute in E; discriminate E].
  destruct (nth_error (data body) 0) as [acme|] eqn:E0;
    [|vm_compute in E; injection E as <-; discriminate E0].
  destruct (nth_error (data body) 2) as [initech|] eqn:E2;
    [|vm_compute in E; injection E as <-; discriminate E2].
  destruct (result_row_shape Demo.JSON_parse (Demo.service Demo.five_replies)
              Demo.now trace body 0 acme E E0) as (c0 & Hc0 & Hacme).
  destruct (result_row_shape Demo.JSON_parse (Demo.service Demo.five_replies)
              Demo.now trace body 2 initech E E2) as (c2 & Hc2 & Hinitech).
  vm_compute in Hc0. injection Hc0 as <-.
  vm_compute in Hc2. injection Hc2 as <-.
  cbn in Hacme. destruct Hacme as (_ & Hcost & Hat & Hiso & _).
  cbn in Hinitech. destruct Hinitech as (Hrow & Herr & _).
  exists body, acme, initech.
  split; [reflexivity|]. split; [exact E0|]. split; [exact E2|].
  split; [exact Hcost|]. split; [exact Hat|]. split; [exact Hiso|].
  split; [exact Herr|]. rewrite Hrow. split; reflexivity.
Defined.

Lemma no_companies_response_witness :
  finish (Demo.csv Demo.nameless) = StreamEnd
  /\ filter resolvable (rows (Demo.csv Demo.nameless)) = []
  /\ enrich Demo.csv Demo.JSON_parse (Demo.service []) Demo.clock
       (Demo.upload Demo.nameless)
     = Status200 (mkSummary true 0 0%float 0%float 0%float []).
Proof.
  assert (H1 : finish (Demo.csv (buffer (mkFile Demo.nameless))) = StreamEnd)
    by (vm_compute; reflexivity).
  assert (H2 : filter resolvable (rows (Demo.csv (buffer (mkFile Demo.nameless)))) = [])
    by (vm_compute; reflexivity).
  split; [exact H1|]. split; [exact H2|].
  exact (no_companies_response Demo.csv Demo.JSON_parse (Demo.service []) Demo.clock
           (mkFile Demo.nameless) H1 H2).
Defined.



(** What the handler gets from the parser for [ragged], and what it replies
    when the service rejects both calls. *)
Example ragged_upload_reply :
  Demo.csv Demo.ragged
  = mkTrace [[("company", "Acme"); ("city", "Paris")];
             [("company", "Globex"); ("city", "Rome"); ("_2", "Italy")]]
            StreamEnd
  /\ enrich Demo.csv Demo.JSON_parse (Demo.service []) Demo.clock
       (Demo.upload Demo.ragged)
     = Status200
         (mkSummary true 2 0.3%float 20%float 19.7%float
            [[("company", Str "Acme"); ("city", Str "Paris");
              ("error", Str "Enrichment failed")];
             [("company", Str "Globex"); ("city", Str "Rome");
              ("_2", Str "Italy"); ("error", Str "Enrichment failed")]]).
Proof. split; vm_compute; reflexivity. Qed.


(** Acme's [industry] cell, "Anvils", gives way to the service's "Tech". *)
Lemma enriched_fields_overwrite_witness :
  let trace := Demo.csv Demo.five in
  let acme := mkCompany "Acme" [("company", "Acme"); ("industry", "Anvils")] in
  obj_get "industry" (originalRow acme) = Some "Anvils"
  /\ exists body r,
       respond Demo.JSON_parse (Demo.service Demo.five_replies) Demo.clock trace
         = Status200 body
       /\ nth_error (data body) 0 = Some r
       /\ obj_get "industry" r = Some (Str "Tech")
       /\ ~ In ("industry", Str "Anvils") r.
Proof.
  intros trace acme. split; [reflexivity|].
  destruct (respond Demo.JSON_parse (Demo.service Demo.five_replies) Demo.clock trace)
    as [body|err] eqn:E; [|vm_compute in E; discriminate E].
  assert (H2 : nth_error (batch_of trace) 0 = Some acme) by (vm_compute; reflexivity).
  assert (H3 : enrichCompany Demo.JSON_parse (Demo.service Demo.five_replies) 0
                 (name acme) = inr Demo.tech_object) by (vm_compute; reflexivity).
  assert (H4 : obj_get "industry" Demo.tech_object = Some (Str "Tech")) by reflexivity.
  destruct (enriched_fields_overwrite Demo.JSON_parse (Demo.service Demo.five_replies)
              Demo.clock trace body 0 acme Demo.tech_object "industry" (Str "Tech")
              E H2 H3 H4 ltac:(discriminate) ltac:(discriminate))
    as (r & Hr & Hget & Honly).
  exists body, r. split; [reflexivity|]. split; [exact Hr|]. split; [exact Hget|].
  intros Hin. specialize (Honly _ Hin). discriminate Honly.
Defined.

(** An empty [company] cell lets [business_name] through; when nothing else
    holds a name the row is left out, although it has a [city]. *)
Lemma empty_cell_falls_through_witness :
  let row := [("company", ""); ("business_name", "Acme Ltd")] in
  let blank := [("company", ""); ("city", "Paris")] in
  obj_get "company" row = Some ""
  /\ companyName row = Some "Acme Ltd"
  /\ companyName blank = Some ""
  /\ on_data [] blank = [].
Proof.
  intros row blank.
  destruct empty_cell_falls_through as (Hskip & Hdrop & _).
  assert (H1 : obj_get "company" row = Some "") by reflexivity.
  assert (H2 : companyName blank = Some "") by reflexivity.
  split; [exact H1|]. split; [|split; [exact H2|]].
  - rewrite (Hskip row "company" (or_introl H1)). reflexivity.
  - exact (Hdrop blank [] (or_introl H2)).
Defined.

(* ================================================================== *)
(** ** More on the pattern: where the match sits in the reply *)
(* ================================================================== *)

Section PatternShape.

Lemma append_assoc (a b c : string) : (a ++ b) ++ c = a ++ (b ++ c).
Proof. induction a as [|x a IH]; simpl; [reflexivity | now rewrite IH]. Qed.

Lemma upto_last_none c s : upto_last c s = None <-> last_index c s = None.
Proof. rewrite upto_last_index. now destruct (last_index c s). Qed.

(** The last [c] of a text that ends in [c] and a tail without [c]. *)
Lemma upto_last_app c x post :
  last_index c post = None ->
  upto_last c (x ++ String c post) = Some (x ++ String c "").
Proof.
  intros Hpost. apply upto_last_none in Hpost.
  induction x as [|a x IH]; simpl.
  - now rewrite Hpost, Ascii.eqb_refl.
  - now rewrite IH.
Qed.

Lemma upto_last_split c s m :
  upto_last c s = Some m ->
  exists x post,
    s = x ++ String c post /\ m = x ++ String c "" /\ last_index c post = None.
Proof.
  revert m. induction s as [|a s IH]; intros m; simpl; [discriminate|].
  destruct (upto_last c s) as [m'|] eqn:E.
  - intros [= <-]. destruct (IH m' eq_refl) as (x & post & -> & -> & Hp).
    now exists (String a x), post.
  - destruct (Ascii.eqb_spec a c) as [->|Hne]; [|discriminate].
    intros [= <-]. exists "", s. repeat split. now apply upto_last_none.
Qed.

Lemma upto_last_some c x y : upto_last c (x ++ String c y) <> None.
Proof.
  induction x as [|a x IH]; simpl.
  - destruct (upto_last c y); [discriminate|]. now rewrite Ascii.eqb_refl.
  - destruct (upto_last c (x ++ String c y)); [discriminate | contradiction].
Qed.

(** Prose without an opening brace before the object, and prose without a
    closing brace after it, are cut away. *)
Lemma regex_match_wrapped pre mid post :
  first_index "{" pre = None -> last_index "}" post = None ->
  regex_match json_re (pre ++ "{" ++ mid ++ "}" ++ post) = Some ("{" ++ mid ++ "}").
Proof.
  intros Hpre Hpost. induction pre as [|a pre IH].
  - change ("" ++ "{" ++ mid ++ "}" ++ post) with (String "{" (mid ++ String "}" post)).
    cbn [regex_match]. rewrite match_here_json, Ascii.eqb_refl.
    now rewrite (upto_last_app _ _ _ Hpost).
  - simpl in Hpre. destruct (Ascii.eqb_spec a "{") as [->|Hne]; [discriminate|].
    change (String a pre ++ "{" ++ mid ++ "}" ++ post)
      with (String a (pre ++ "{" ++ mid ++ "}" ++ post)).
    cbn [regex_match]. rewrite match_here_json.
    destruct (Ascii.eqb_spec a "{") as [->|_]; [contradiction|].
    apply IH. now destruct (first_index "{" pre).
Qed.

Lemma regex_match_unwrap s m :
  regex_match json_re s = Some m ->
  exists pre mid post,
    s = pre ++ m ++ post /\ m = "{" ++ mid ++ "}"
    /\ first_index "{" pre = None /\ last_index "}" post = None.
Proof.
  revert m. induction s as [|a s IH]; intros m; [discriminate|].
  cbn [regex_match]. rewrite match_here_json.
  destruct (Ascii.eqb_spec a "{") as [->|Hne].
  - destruct (upto_last "}" s) as [m'|] eqn:E; simpl.
    + intros [= <-]. destruct (upto_last_split _ _ _ E) as (x & post & -> & -> & Hp).
      exists "", x, post. simpl. rewrite append_assoc. now repeat split.
    + apply upto_last_none in E. now rewrite (regex_match_no_close _ E).
  - intros H. destruct (IH m H) as (pre & mid & post & -> & -> & Hpre & Hpost).
    exists (String a pre), mid, post. repeat split; [|exact Hpost].
    simpl. destruct (Ascii.eqb_spec a "{"); [contradiction|]. now rewrite Hpre.
Qed.

(** A closing brace somewhere after an opening brace is enough for a match. *)
Lemma regex_match_exists pre mid post :
  regex_match json_re (pre ++ "{" ++ mid ++ "}" ++ post) <> None.
Proof.
  induction pre as [|a pre IH].
  - change ("" ++ "{" ++ mid ++ "}" ++ post) with (String "{" (mid ++ String "}" post)).
    cbn [regex_match]. rewrite match_here_json, Ascii.eqb_refl.
    pose proof (upto_last_some "}" mid post) as H.
    now destruct (upto_last "}" (mid ++ String "}" post)).
  - change (String a pre ++ "{" ++ mid ++ "}" ++ post)
      with (String a (pre ++ "{" ++ mid ++ "}" ++ post)).
    cbn [regex_match]. rewrite match_here_json.
    destruct (a =? "{")%char; [|exact IH].
    replace (pre ++ "{" ++ mid ++ "}" ++ post)
      with ((pre ++ "{" ++ mid) ++ String "}" post)
      by (now rewrite !append_assoc).
    pose proof (upto_last_some "}" (pre ++ "{" ++ mid) post) as H.
    now destruct (upto_last "}" ((pre ++ "{" ++ mid) ++ String "}" post)).
Qed.

(** X1: the text handed to [JSON.parse] is a piece of the reply that starts
    with an opening brace and ends with a closing brace, with no opening
    brace anywhere before it and no closing brace anywhere after it; and
    every such piece is the one that is handed over. *)
Theorem match_is_outermost_braces (s m : string) :
  regex_match json_re s = Some m <->
  exists pre mid post,
    s = pre ++ m ++ post /\ m = "{" ++ mid ++ "}"
    /\ first_index "{" pre = None /\ last_index "}" post = None.
Proof.
  split; [apply regex_match_unwrap|].
  intros (pre & mid & post & -> & -> & Hpre & Hpost).
  rewrite <- (regex_match_wrapped pre mid post Hpre Hpost).
  f_equal. f_equal. now rewrite !append_assoc.
Qed.

(** X2: the reply has no match, so that [enrichCompany] throws
    'No JSON in response', exactly when no closing brace comes anywhere
    after an opening brace. *)
Theorem no_match_iff_no_braces (s : string) :
  regex_match json_re s = None <->
  ~ exists pre mid post, s = pre ++ "{" ++ mid ++ "}" ++ post.
Proof.
  split.
  - intros Hnone (pre & mid & post & ->). now apply (regex_match_exists pre mid post).
  - intros Hno. destruct (regex_match json_re s) as [m|] eqn:E; [|reflexivity].
    exfalso. apply Hno.
    destruct (regex_match_unwrap _ _ E) as (pre & mid & post & -> & -> & _).
    exists pre, mid, post. now rewrite !append_assoc.
Qed.

(** X3: prose around the object does not change what the client returns, as
    long as the prose before it has no opening brace and the prose after it
    has no closing brace: the reply is treated as the bare object would be. *)
Theorem prose_around_object_ignored (JSON_parse : string -> option EnrichedData)
    (pre mid post : string) :
  first_index "{" pre = None -> last_index "}" post = None ->
  parse_reply JSON_parse (pre ++ "{" ++ mid ++ "}" ++ post)
  = parse_reply JSON_parse ("{" ++ mid ++ "}")
  /\ parse_reply JSON_parse ("{" ++ mid ++ "}")
     = match JSON_parse ("{" ++ mid ++ "}") with
       | Some parsed => inr parsed
       | None => inl MalformedJson
       end.
Proof.
  intros Hpre Hpost. unfold parse_reply.
  rewrite (regex_match_wrapped pre mid post Hpre Hpost).
  pose proof (regex_match_wrapped "" mid "" eq_refl eq_refl) as H.
  change (regex_match json_re ("{" ++ mid ++ "}") = Some ("{" ++ mid ++ "}")) in H.
  rewrite H. split; [reflexivity|]. now destruct (JSON_parse _).
Qed.

End PatternShape.

(* ================================================================== *)
(** ** More on the client: every outcome and its cause *)
(* ================================================================== *)

Section ClientOutcomes.

Variable JSON_parse : string -> option EnrichedData.
Variable messages_create : nat -> CreateParams -> ServiceReply.

Local Abbreviation enrichCompany := (enrichCompany JSON_parse messages_create).

Local Ltac cases :=
  repeat match goal with
         | H : exists _, _ |- _ => destruct H
         | H : _ /\ _ |- _ => destruct H
         | H : _ \/ _ |- _ => destruct H
         | H : Resolves _ = Resolves _ |- _ => inversion H; subst; clear H
         | H : Rejects = Resolves _ |- _ => discriminate H
         | H : Resolves _ = Rejects |- _ => discriminate H
         end;
  try discriminate; try congruence.

(** X4: each outcome of [enrichCompany] has one cause, read off the reply
    of the service: a rejected call; a reply with no block or whose first
    block has no text; a text with no closing brace after an opening one; a
    brace-delimited text that [JSON.parse] refuses; and success is the parse
    of that text.  Only the first block counts: the blocks after it are
    never looked at. *)
Theorem outcomes_have_one_cause (call : nat) (companyName : string) :
  let reply := messages_create call (create_params companyName) in
  (enrichCompany call companyName = inl ServiceError <-> reply = Rejects)
  /\ (enrichCompany call companyName = inl TypeError <->
        reply = Resolves []
        \/ exists rest, reply = Resolves (mkBlock None :: rest))
  /\ (enrichCompany call companyName = inl NoJsonFound <->
        exists t rest,
          reply = Resolves (mkBlock (Some t) :: rest) /\ brace_span t = None)
  /\ (enrichCompany call companyName = inl MalformedJson <->
        exists t rest j,
          reply = Resolves (mkBlock (Some t) :: rest)
          /\ brace_span t = Some j /\ JSON_parse j = None)
  /\ (forall d,
        enrichCompany call companyName = inr d <->
        exists t rest j,
          reply = Resolves (mkBlock (Some t) :: rest)
          /\ brace_span t = Some j /\ JSON_parse j = Some d).
Proof.
  intros reply. subst reply. unfold EnrichmentClient.enrichCompany.
  destruct (messages_create call (create_params companyName))
    as [|[|[[t|]] rest]]; simpl.
  - repeat split; intros; cases.
  - repeat split; intros; cases. now left.
  - unfold parse_reply. rewrite regex_match_brace_span.
    destruct (brace_span t) as [j|] eqn:Ej.
    + destruct (JSON_parse j) as [d|] eqn:Ed.
      * repeat split; intros; cases.
        injection H as <-. now exists t, rest, j.
      * repeat split; intros; cases. now exists t, rest, j.
    + repeat split; intros; cases. now exists t, rest.
  - repeat split; intros; cases. right. now exists rest.
Qed.

End ClientOutcomes.

(* ================================================================== *)
(** ** More on the row extractor *)
(* ================================================================== *)

Section CompaniesFacts.

Lemma obj_get_in_values (k v : string) (row : Row) :
  obj_get k row = Some v -> In v (Object_values row).
Proof.
  intros H. apply obj_get_some_in in H.
  change v with (snd (k, v)). now apply in_map.
Qed.

Lemma derive_name_in_values (row : Row) (n : string) :
  derive_name row = Some n -> In n (Object_values row).
Proof.
  unfold derive_name.
  destruct (find (fun a => truthy (obj_get a row)) aliases) as [a|].
  - apply obj_get_in_values.
  - destruct row as [|[k v] row]; simpl; [discriminate|]. intros [= ->]. now left.
Qed.

Lemma push_changes (A : Type) (l : list A) (x : A) : (l ++ [x])%list <> l.
Proof.
  intros H. apply (f_equal (@List.length A)) in H.
  rewrite length_app in H. simpl in H. lia.
Qed.

Lemma resolvable_false (row : Row) :
  resolvable row = false <->
  Forall (fun a => truthy (obj_get a row) = false) aliases
  /\ truthy (first_value row) = false.
Proof.
  unfold resolvable, derive_name.
  destruct (find (fun a => truthy (obj_get a row)) aliases) as [a|] eqn:E.
  - apply find_some in E. destruct E as [Hin Ha]. split.
    + congruence.
    + intros [Hall _]. rewrite Forall_forall in Hall. specialize (Hall a Hin).
      congruence.
  - split.
    + intros H. split; [|exact H]. apply Forall_forall.
      exact (find_none _ _ E).
    + now intros [_ H].
Qed.

(** X5: every company that reaches the batch carries a row of the upload
    untouched, and its name is a non-empty string that is one of the values
    of that row. *)
Theorem companies_carry_named_rows (rs : list Row) :
  Forall (fun c => name c <> ""
                   /\ In (name c) (Object_values (originalRow c))
                   /\ In (originalRow c) rs)
         (collect rs).
Proof.
  rewrite collect_spec. apply Forall_forall. intros c Hc.
  apply in_map_iff in Hc. destruct Hc as (row & <- & Hrow).
  apply filter_In in Hrow. destruct Hrow as [Hin Hres].
  unfold company_of. simpl. unfold resolvable in Hres.
  destruct (derive_name row) as [n|] eqn:E; [|discriminate]. simpl in Hres.
  split; [|split; [now apply derive_name_in_values | exact Hin]].
  destruct (String.eqb_spec n ""); [discriminate | assumption].
Qed.

(** X6: rows are taken one by one, in order: the companies of two chunks of
    rows are the companies of the first followed by those of the second. *)
Theorem collect_chunks (rs1 rs2 : list Row) :
  collect (rs1 ++ rs2) = (collect rs1 ++ collect rs2)%list.
Proof. now rewrite !collect_spec, filter_app, map_app. Qed.

(** X7: a row is left out exactly when none of the four alias columns holds
    a non-empty string and the first value of the row is empty or missing;
    whatever its other columns hold makes no difference. *)
Theorem row_left_out_iff (row : Row) (companies : list Company) :
  on_data companies row = companies <->
  Forall (fun a => truthy (obj_get a row) = false) aliases
  /\ truthy (first_value row) = false.
Proof.
  rewrite <- resolvable_false, on_data_spec.
  destruct (resolvable row); split; try reflexivity; try discriminate.
  intros H. now apply push_changes in H.
Qed.

End CompaniesFacts.

(* ================================================================== *)
(** ** More on the endpoint *)
(* ================================================================== *)

Section ReplyFacts.

Variable csv : string -> Trace.
Variable JSON_parse : string -> option EnrichedData.
Variable messages_create : nat -> CreateParams -> ServiceReply.
Variable now_toISOString : nat -> string.

Local Abbreviation enrichCompany := (enrichCompany JSON_parse messages_create).
Local Abbreviation enrich_loop := (enrich_loop JSON_parse messages_create now_toISOString).
Local Abbreviation respond := (respond JSON_parse messages_create now_toISOString).
Local Abbreviation enrich := (enrich csv JSON_parse messages_create now_toISOString).

(** X8: for a request that reaches the handler function, the handler
    replies 200 exactly when a file came with the request and the parser's
    stream ended; whatever the service does, no failure of an enrichment
    turns its reply into a 500; and a 500 sent by the handler never says
    more than "Processing failed". *)
Theorem status_depends_on_upload_only (req : Request) :
  ((exists body, enrich req = Status200 body) <->
   (exists f, file req = Some f /\ finish (csv (buffer f)) = StreamEnd))
  /\ (forall msg, enrich req = Status500 msg -> msg = "Processing failed").
Proof.
  unfold Handler.enrich, Handler.respond.
  destruct (file req) as [f|].
  - destruct (finish (csv (buffer f))) eqn:E; split.
    + split; [intros _; now exists f | intros _; eexists; reflexivity].
    + discriminate.
    + split; [intros [body H]; discriminate | intros (f' & [= <-] & H); congruence].
    + now intros msg [= <-].
  - split.
    + split; [intros [body H]; discriminate | intros (f & H & _); discriminate].
    + now intros msg [= <-].
Qed.

Lemma enrich_loop_all_fail batch : forall i,
  (forall j c, nth_error batch j = Some c ->
     exists e, enrichCompany (i + j) (name c) = inl e) ->
  enrich_loop i batch [] = map failed_row batch.
Proof.
  induction batch as [|c batch IH]; intros i Hall; [reflexivity|].
  rewrite enrich_loop_cons. simpl. f_equal.
  - destruct (Hall 0 c eq_refl) as [e He]. rewrite Nat.add_0_r in He.
    unfold row_at, row_for. now rewrite He.
  - apply IH. intros j c' Hj. destruct (Hall (S j) c' Hj) as [e He].
    exists e. now replace (S i + j) with (i + S j) by lia.
Qed.

(** X9: when every enrichment of the batch fails the reply is still a 200
    with [success: true]: each row is its original row with the error
    marker, and the summary numbers are those of a full batch. *)
Theorem all_failures_still_200 (trace : Trace) :
  finish trace = StreamEnd ->
  (forall i c, nth_error (batch_of trace) i = Some c ->
     exists e, enrichCompany i (name c) = inl e) ->
  respond trace = Status200 (summary (map failed_row (batch_of trace))).
Proof.
  intros Hend Hall. unfold Handler.respond. rewrite Hend.
  fold (batch_of trace). now rewrite (enrich_loop_all_fail _ 0 Hall).
Qed.

(** X10: the rows of [data] come in the order of the upload: the [i]-th of
    them is the row pushed in round [i] for the [i]-th row of the upload
    that has a resolvable name, and there is no round 50. *)
Theorem data_in_upload_order (trace : Trace) (body : Summary) (i : nat)
    (r : ResultRow) :
  respond trace = Status200 body ->
  nth_error (data body) i = Some r ->
  i < 50
  /\ exists row,
       nth_error (filter resolvable (rows trace)) i = Some row
       /\ r = row_at JSON_parse messages_create now_toISOString i (company_of row).
Proof.
  intros Hr Hi.
  destruct (respond_200 _ _ _ _ _ Hr) as [_ ->]. cbn [data summary] in Hi.
  destruct (enrich_loop_nth_inv _ _ _ _ _ _ Hi) as (c & Hc & ->).
  unfold batch_of, batch_limit in Hc. rewrite nth_error_firstn in Hc.
  destruct (Nat.ltb_spec i 50) as [Hlt|]; [|discriminate].
  split; [exact Hlt|].
  rewrite collect_spec, nth_error_map in Hc.
  destruct (nth_error (filter resolvable (rows trace)) i) as [row|]; [|discriminate].
  injection Hc as <-. now exists row.
Qed.

(** X11: no row of [data] lists a key twice, also when the upload, the
    parsed object and the handler's own fields share names. *)
Theorem rows_list_each_key_once (trace : Trace) (body : Summary) :
  respond trace = Status200 body ->
  Forall (fun r => NoDup (Object_keys r)) (data body).
Proof.
  intros Hr. destruct (respond_200 _ _ _ _ _ Hr) as [_ ->]. cbn [data summary].
  apply Forall_forall. intros r Hin.
  destruct (In_nth_error _ _ Hin) as [i Hi].
  destruct (enrich_loop_nth_inv _ _ _ _ _ _ Hi) as (c & _ & ->).
  unfold row_at, row_for. destruct (enrichCompany i (name c)).
  - apply failed_row_NoDup.
  - apply enriched_row_NoDup.
Qed.

Lemma summary_bounds (n : nat) :
  n <= 50 ->
  (Number_of_nat n * 0.15 <=? 7.5)%float = true
  /\ (Number_of_nat n * 10 <=? 500)%float = true
  /\ (0 <=? Number_of_nat n * 10 - Number_of_nat n * 0.15)%float = true
  /\ (0 < n -> (0 <? Number_of_nat n * 10 - Number_of_nat n * 0.15)%float = true).
Proof.
  intros H.
  do 51 (destruct n as [|n];
         [repeat split;
          first [ vm_compute; reflexivity
                | intros H0; first [ inversion H0; fail | vm_compute; reflexivity ] ]|]).
  lia.
Qed.

(** X12: the numbers of a 200 reply are bounded by the batch limit: at most
    50 rows, an estimated cost of at most 7.5, a retail value of at most
    500, and a margin that is never negative and is positive as soon as one
    row was processed. *)
Theorem summary_within_bounds (req : Request) (body : Summary) :
  enrich req = Status200 body ->
  total_processed body <= 50
  /\ (estimated_cost body <=? 7.5)%float = true
  /\ (retail_value body <=? 500)%float = true
  /\ (0 <=? margin body)%float = true
  /\ (0 < total_processed body -> (0 <? margin body)%float = true).
Proof.
  intros H. destruct (enrich_200 _ _ _ _ _ _ H) as (f & _ & Hr).
  destruct (respond_200 _ _ _ _ _ Hr) as [_ ->].
  cbn [total_processed estimated_cost retail_value margin summary].
  assert (Hn : List.length (enrich_loop 0 (batch_of (csv (buffer f))) []) <= 50).
  { rewrite enrich_loop_length, batch_of_length. apply Nat.le_min_r. }
  split; [exact Hn|]. now apply summary_bounds.
Qed.

End ReplyFacts.

(* ================================================================== *)
(** ** The request text *)
(* ================================================================== *)

Section PromptFacts.

Lemma length_append (a b : string) :
  String.length (a ++ b) = String.length a + String.length b.
Proof. induction a as [|x a IH]; simpl; [reflexivity | now rewrite IH]. Qed.

Lemma append_same_length (a b t u : string) :
  String.length a = String.length b -> a ++ t = b ++ u -> a = b.
Proof.
  revert b. induction a as [|x a IH]; intros [|y b]; simpl; try discriminate.
  - reflexivity.
  - intros [= Hl] [= -> H]. f_equal. now apply IH.
Qed.

Lemma append_cancel_r (a b t : string) : a ++ t = b ++ t -> a = b.
Proof.
  intros H. apply (append_same_length a b t t); [|exact H].
  apply (f_equal String.length) in H. rewrite !length_append in H. lia.
Qed.

Lemma prompt_parts :
  exists tail, forall n, prompt n = "Research " ++ dq ++ n ++ dq ++ tail.
Proof.
  eexists. intros n. unfold prompt, quoted. rewrite !append_assoc. reflexivity.
Qed.

(** X13: the company name goes into the request text as it is, between
    double quotes and with nothing escaped, after the word Research and
    before a text that is the same for every company; so two different
    names never give the same request. *)
Theorem name_spliced_verbatim :
  (exists tail, forall n, prompt n = "Research " ++ dq ++ n ++ dq ++ tail)
  /\ (forall a b, create_params a = create_params b -> a = b).
Proof.
  split; [exact prompt_parts|].
  intros a b H.
  assert (Hp : prompt a = prompt b)
    by exact (f_equal (fun p => match messages p with
                                | m :: _ => content m
                                | [] => ""
                                end) H).
  destruct prompt_parts as [tail Ht]. rewrite !Ht in Hp.
  simpl in Hp. injection Hp as Hp. now apply append_cancel_r in Hp.
Qed.

End PromptFacts.

(* ================================================================== *)
(** ** Copying a row: the order of the columns *)
(* ================================================================== *)

Section CopyFacts.
Context {V : Type}.
Implicit Types (o acc src : Obj V) (k : string) (v : V).

Lemma obj_add_last k v acc :
  Forall (fun kv => key_before k (fst kv) = false) acc ->
  obj_add k v acc = (acc ++ [(k, v)])%list.
Proof.
  induction acc as [|[k' v'] acc IH]; intros H; simpl; [reflexivity|].
  inversion H as [|? ? Hk Hrest]; subst. simpl in Hk. rewrite Hk.
  now rewrite IH.
Qed.

Lemma key_ordered_before l1 k v l2 :
  key_ordered (l1 ++ (k, v) :: l2)%list ->
  Forall (fun kv => key_before k (fst kv) = false) l1.
Proof.
  induction l1 as [|[k1 v1] l1 IH]; simpl; intros H; [constructor|].
  destruct H as [Hall Hord]. constructor; [|now apply IH].
  rewrite Forall_forall in Hall. simpl.
  apply (Hall (k, v)). apply in_or_app. right. now left.
Qed.

Lemma spread_steps src : forall l2 l1,
  NoDup (Object_keys src) -> key_ordered src -> src = (l1 ++ l2)%list ->
  fold_left
    (fun acc k => match obj_get k src with
                  | Some v => obj_set k v acc
                  | None => acc
                  end)
    (Object_keys l2) l1 = src.
Proof.
  induction l2 as [|[k v] l2 IH]; intros l1 Hnd Hord Hsrc; simpl.
  - now rewrite Hsrc, app_nil_r.
  - assert (Hget : obj_get k src = Some v).
    { apply obj_get_unique; [exact Hnd|]. rewrite Hsrc.
      apply in_or_app. right. now left. }
    rewrite Hget.
    assert (Hnew : obj_has k l1 = false).
    { apply obj_has_false. rewrite Hsrc in Hnd. unfold Object_keys in *.
      rewrite map_app in Hnd. simpl in Hnd. apply NoDup_remove_2 in Hnd.
      intros Hin. apply Hnd. apply in_or_app. now left. }
    unfold obj_set. rewrite Hnew.
    rewrite obj_add_last by (rewrite Hsrc in Hord; exact (key_ordered_before _ _ _ _ Hord)).
    apply IH; [exact Hnd | exact Hord|]. now rewrite <- app_assoc.
Qed.

(** Spreading a well-formed object into an empty literal copies it. *)
Lemma obj_spread_copy o : well_formed o -> obj_spread o [] = o.
Proof. intros [Hnd Hord]. unfold obj_spread. now apply spread_steps. Qed.

End CopyFacts.

Section FailedRowOrder.

Lemma Object_keys_cells (row : Row) : Object_keys (cells row) = Object_keys row.
Proof. unfold Object_keys, cells. rewrite map_map. now apply map_ext. Qed.

Lemma key_ordered_cells (row : Row) : key_ordered row -> key_ordered (cells row).
Proof.
  induction row as [|[k v] row IH]; simpl; [trivial|].
  intros [Hall Hord]. split; [|now apply IH].
  unfold cells. rewrite Forall_map. simpl. exact Hall.
Qed.

Lemma well_formed_cells (row : Row) : well_formed row -> well_formed (cells row).
Proof.
  intros [Hnd Hord]. split; [now rewrite Object_keys_cells | now apply key_ordered_cells].
Qed.

(** X14: for a row as the parser builds it, the failed result row has the
    columns of the upload in the order of the upload; an [error] column of
    the upload keeps its place and loses its text, and otherwise [error] is
    added after the last column. *)
Theorem failed_row_keeps_column_order (company : Company) :
  well_formed (originalRow company) ->
  failed_row company
    = obj_set "error" (Str "Enrichment failed") (cells (originalRow company))
  /\ (obj_get "error" (originalRow company) = None ->
      failed_row company
      = (cells (originalRow company) ++ [("error", Str "Enrichment failed")])%list)
  /\ Object_keys (failed_row company)
     = if obj_has "error" (originalRow company)
       then Object_keys (originalRow company)
       else (Object_keys (originalRow company) ++ ["error"])%list.
Proof.
  intros Hwf. unfold failed_row.
  rewrite (obj_spread_copy _ (well_formed_cells _ Hwf)).
  split; [reflexivity|].
  assert (Hhas : obj_has "error" (cells (originalRow company))
                 = obj_has "error" (originalRow company)).
  { unfold obj_has. rewrite obj_get_cells.
    now destruct (obj_get "error" (originalRow company)). }
  assert (Hlast : obj_add "error" (Str "Enrichment failed") (cells (originalRow company))
                  = (cells (originalRow company) ++ [("error", Str "Enrichment failed")])%list).
  { apply obj_add_last. apply Forall_forall. now intros kv _. }
  split.
  - intros Hnone. unfold obj_set. rewrite Hhas. unfold obj_has. now rewrite Hnone.
  - unfold obj_set. rewrite Hhas. destruct (obj_has "error" (originalRow company)).
    + now rewrite Object_keys_replace, Object_keys_cells.
    + rewrite Hlast. unfold Object_keys at 1. rewrite map_app.
      fold (Object_keys (cells (originalRow company))). now rewrite Object_keys_cells.
Qed.

End FailedRowOrder.

(* ================================================================== *)
(** ** The further theorems at concrete uploads *)
(* ================================================================== *)

(** The fenced reply of [Demo.wrapped] is read as the bare object. *)
Lemma prose_around_object_ignored_witness :
  let pre := "Here you go:" ++ nl ++ "```json" ++ nl in
  let mid := quoted "industry" ++ ":" ++ quoted "Tech" in
  let post := nl ++ "```" in
  first_index "{" pre = None
  /\ last_index "}" post = None
  /\ pre ++ "{" ++ mid ++ "}" ++ post = Demo.wrapped
  /\ parse_reply Demo.JSON_parse (pre ++ "{" ++ mid ++ "}" ++ post)
     = inr Demo.tech_object.
Proof.
  intros pre mid post.
  assert (H1 : first_index "{" pre = None) by reflexivity.
  assert (H2 : last_index "}" post = None) by reflexivity.
  split; [exact H1|]. split; [exact H2|]. split; [reflexivity|].
  destruct (prose_around_object_ignored Demo.JSON_parse pre mid post H1 H2) as [-> ->].
  reflexivity.
Defined.

(** The five companies with a service that rejects every call. *)
Lemma all_failures_still_200_witness :
  let trace := Demo.csv Demo.five in
  finish trace = StreamEnd
  /\ (forall i c, nth_error (batch_of trace) i = Some c ->
        exists e, enrichCompany Demo.JSON_parse (Demo.service []) i (name c) = inl e)
  /\ exists body,
       respond Demo.JSON_parse (Demo.service []) Demo.clock trace = Status200 body
       /\ success body = true
       /\ total_processed body = 5
       /\ estimated_cost body = 0.75%float
       /\ Forall (fun r => obj_get "error" r = Some (Str "Enrichment failed")) (data body).
Proof.
  intros trace.
  assert (H1 : finish trace = StreamEnd) by reflexivity.
  assert (H2 : forall i c, nth_error (batch_of trace) i = Some c ->
                 exists e, enrichCompany Demo.JSON_parse (Demo.service []) i (name c) = inl e).
  { intros i c _. exists ServiceError. unfold enrichCompany, Demo.service.
    now destruct i. }
  split; [exact H1|]. split; [exact H2|].
  eexists. split; [exact (all_failures_still_200 _ _ Demo.clock trace H1 H2)|].
  vm_compute. repeat split. repeat constructor.
Defined.

(** The second row of the reply to [five] is Globex, the second row of the
    upload. *)
Lemma data_in_upload_order_witness :
  let trace := Demo.csv Demo.five in
  exists body r,
    respond Demo.JSON_parse (Demo.service Demo.five_replies) Demo.clock trace
      = Status200 body
    /\ nth_error (data body) 1 = Some r
    /\ nth_error (filter resolvable (rows trace)) 1
       = Some [("company", "Globex"); ("industry", "Energy")]
    /\ obj_get "company" r = Some (Str "Globex").
Proof.
  intros trace.
  destruct (respond Demo.JSON_parse (Demo.service Demo.five_replies) Demo.clock trace)
    as [body|err] eqn:E; [|vm_compute in E; discriminate E].
  destruct (nth_error (data body) 1) as [r|] eqn:Er;
    [|vm_compute in E; injection E as <-; discriminate Er].
  destruct (data_in_upload_order Demo.JSON_parse (Demo.service Demo.five_replies)
              Demo.clock trace body 1 r E Er) as (_ & row & Hrow & ->).
  exists body. eexists. split; [reflexivity|]. split; [exact Er|].
  assert (Hg : nth_error (filter resolvable (rows trace)) 1
               = Some [("company", "Globex"); ("industry", "Energy")]) by reflexivity.
  split; [exact Hg|]. rewrite Hg in Hrow. injection Hrow as <-.
  vm_compute. reflexivity.
Defined.

(** Acme's row has one [industry], although upload and service both gave one. *)
Lemma rows_list_each_key_once_witness :
  exists body,
    respond Demo.JSON_parse (Demo.service Demo.five_replies) Demo.clock
      (Demo.csv Demo.five) = Status200 body
    /\ Forall (fun r => NoDup (Object_keys r)) (data body).
Proof.
  destruct (respond Demo.JSON_parse (Demo.service Demo.five_replies) Demo.clock
              (Demo.csv Demo.five)) as [body|err] eqn:E;
    [|vm_compute in E; discriminate E].
  exists body. split; [reflexivity|].
  exact (rows_list_each_key_once Demo.JSON_parse (Demo.service Demo.five_replies)
           Demo.clock (Demo.csv Demo.five) body E).
Defined.

(** Sixty companies: the numbers are those of fifty. *)
Lemma summary_within_bounds_witness :
  exists body,
    enrich Demo.csv Demo.JSON_parse (Demo.service []) Demo.clock
      (Demo.upload Demo.sixty) = Status200 body
    /\ total_processed body <= 50
    /\ (estimated_cost body <=? 7.5)%float = true
    /\ (0 <? margin body)%float = true.
Proof.
  destruct (enrich Demo.csv Demo.JSON_parse (Demo.service []) Demo.clock
              (Demo.upload Demo.sixty)) as [body|err] eqn:E;
    [|vm_compute in E; discriminate E].
  exists body. split; [reflexivity|].
  destruct (summary_within_bounds _ _ _ _ _ _ E) as (Hn & Hc & _ & _ & Hm).
  split; [exact Hn|]. split; [exact Hc|]. apply Hm.
  vm_compute in E. injection E as <-. vm_compute. repeat constructor.
Defined.

(** A row with an array index among its headers: [7] is listed first, as
    the parser's object lists it, and [error] comes last. *)
Lemma failed_row_keeps_column_order_witness :
  let company := mkCompany "Acme" [("7", "x"); ("company", "Acme"); ("city", "Paris")] in
  well_formed (originalRow company)
  /\ Object_keys (failed_row company) = ["7"; "company"; "city"; "error"].
Proof.
  intros company.
  assert (H : well_formed (originalRow company)).
  { split.
    - repeat constructor; simpl; intuition discriminate.
    - simpl. repeat split; repeat constructor. }
  split; [exact H|].
  destruct (failed_row_keeps_column_order company H) as (_ & _ & ->).
  reflexivity.
Defined.
